(** * Medical-Chatbot: a shallow embedding of the React front end
      (UploadPDF, Chatbot, PDFManager, App) and of the retrieval pipeline
      described by the specification, with the properties claimed of them. *)

From Stdlib Require Import ZArith List Ascii String DecimalString Lia Bool.
From stdpp Require Import base gmap strings list.

Open Scope string_scope.
Open Scope list_scope.
Open Scope Z_scope.

(** ** JavaScript values used by the components

    Strings are kept as the bytes of their UTF-8 encoding; the components
    only compare, concatenate, lower-case and trim them.  Lower-casing is
    written out for the ASCII range, the only one that can produce the
    suffix [".pdf"]; trimming knows every white space and line terminator
    of the language, each in its encoding of one to three bytes. *)
Module JS.

(** [String.prototype.toLowerCase], one code unit at a time. *)
Definition lowerChar (c : ascii) : ascii :=
  let n := nat_of_ascii c in
  if ((65 <=? n)%nat && (n <=? 90)%nat)%bool then ascii_of_nat (n + 32) else c.

Fixpoint toLowerCase (s : string) : string :=
  match s with
  | EmptyString => EmptyString
  | String c s' => String (lowerChar c) (toLowerCase s')
  end.

(** [s.endsWith(suffix)]. *)
Definition endsWith (s suffix : string) : bool :=
  let n := String.length s in
  let m := String.length suffix in
  ((m <=? n)%nat && String.eqb (substring (n - m) m s) suffix)%bool.

(** The string made of the given bytes. *)
Definition bytes (l : list nat) : string :=
  string_of_list_ascii (map ascii_of_nat l).

(** What [String.prototype.trim] strips, each character in its encoding:
    TAB, LF, VT, FF, CR, SPACE, U+00A0, U+1680, U+2000 to U+200A, U+2028,
    U+2029, U+202F, U+205F, U+3000 and U+FEFF. *)
Definition whiteSpaces : list string :=
  [ bytes [9]; bytes [10]; bytes [11]; bytes [12]; bytes [13]; bytes [32];
    bytes [194; 160];
    bytes [225; 154; 128];
    bytes [226; 128; 128]; bytes [226; 128; 129]; bytes [226; 128; 130];
    bytes [226; 128; 131]; bytes [226; 128; 132]; bytes [226; 128; 133];
    bytes [226; 128; 134]; bytes [226; 128; 135]; bytes [226; 128; 136];
    bytes [226; 128; 137]; bytes [226; 128; 138];
    bytes [226; 128; 168]; bytes [226; 128; 169]; bytes [226; 128; 175];
    bytes [226; 129; 159];
    bytes [227; 128; 128];
    bytes [239; 187; 191] ]%nat.

(** [s] begins with [p]. *)
Fixpoint startsWith (p s : string) : bool :=
  match p, s with
  | EmptyString, _ => true
  | String _ _, EmptyString => false
  | String a p', String b s' => Ascii.eqb a b && startsWith p' s'
  end.

Fixpoint dropChars (n : nat) (s : string) : string :=
  match n, s with
  | O, _ => s
  | S n', EmptyString => EmptyString
  | S n', String _ s' => dropChars n' s'
  end.

(** [s] without the first of the strings [ws] it begins with, if any. *)
Fixpoint stripAny (ws : list string) (s : string) : option string :=
  match ws with
  | [] => None
  | w :: ws' =>
      if startsWith w s then Some (dropChars (String.length w) s)
      else stripAny ws' s
  end.

(** Leading white space goes one character at a time; each step consumes
    at least one byte, so [fuel] is the length of the string. *)
Fixpoint trimStartFrom (fuel : nat) (s : string) : string :=
  match fuel with
  | O => s
  | S fuel' =>
      match stripAny whiteSpaces s with
      | Some rest => trimStartFrom fuel' rest
      | None => s
      end
  end.

Definition trimStart (s : string) : string := trimStartFrom (String.length s) s.

Definition allWhiteSpace (s : string) : bool := String.eqb (trimStart s) "".

(** Trailing white space: the longest suffix made of white space only. *)
Fixpoint trimEnd (s : string) : string :=
  match s with
  | EmptyString => EmptyString
  | String c s' => if allWhiteSpace s then EmptyString else String c (trimEnd s')
  end.

Definition trim (s : string) : string := trimEnd (trimStart s).

(** Truthiness of a string: only the empty string is falsy. *)
Definition truthy (s : string) : bool := negb (String.eqb s "").

(** [a || b] where [a] may be [undefined] and [b] is a string. *)
Definition orElse (a : option string) (b : string) : string :=
  match a with
  | Some s => if truthy s then s else b
  | None => b
  end.

(** [xs.join(sep)]. *)
Definition join (sep : string) (xs : list string) : string := String.concat sep xs.

(** A string that is empty or made of white space only. *)
Inductive blank : string -> Prop :=
| blank_empty : blank EmptyString
| blank_space w s : In w whiteSpaces -> blank s -> blank (w +:+ s).

(** Decimal rendering of a non-negative integer. *)
Definition digits (n : Z) : string := NilZero.string_of_uint (N.to_uint (Z.to_N n)).

End JS.

(** ** UploadPDF component (file selection and size formatting) *)
Module UploadPDF.

(** The fields of a DOM [File] that the component reads, and
    [lastModified], which tells two files of the same name apart. *)
Record File := mkFile {
  name : string;
  type : string;
  size : Z;
  lastModified : Z
}.

(** The state of the component; [uploadProgress], written by
    [handleUpload] only, is left out. *)
Record State := mkState {
  selectedFiles : list File;
  isUploading : bool;
  error : string;
  success : string
}.

Definition initial : State :=
  {| selectedFiles := []; isUploading := false; error := ""; success := "" |}.

(** First test of the loop body: the file passes when its MIME type is
    PDF or its lower-cased name ends in [.pdf]. *)
Definition isPDF (file : File) : bool :=
  negb (negb (String.eqb (type file) "application/pdf")
        && negb (JS.endsWith (JS.toLowerCase (name file)) ".pdf")).

Definition maxSize : Z := 10 * 1024 * 1024.

Definition tooLarge (file : File) : bool := maxSize <? size file.

(** The predicate of [validFiles.some(...)]. *)
Definition sameNameAndSize (file f : File) : bool :=
  String.eqb (name f) (name file) && (size f =? size file).

(** One iteration of [files.forEach], on the two accumulators
    [validFiles] and [errors]. *)
Definition visit (acc : list File * list string) (file : File)
  : list File * list string :=
  let '(validFiles, errors) := acc in
  if negb (isPDF file) then
    (validFiles, errors ++ [name file +:+ " is not a PDF file"])
  else if tooLarge file then
    (validFiles, errors ++ [name file +:+ " is too large (max 10MB)"])
  else if existsb (sameNameAndSize file) validFiles then
    (validFiles, errors ++ [name file +:+ " is already selected"])
  else
    (validFiles ++ [file], errors).

Definition scan (files : list File) : list File * list string :=
  fold_left visit files ([], []).

Definition handleFileChange (st : State) (files : list File) : State :=
  let '(validFiles, errors) := scan files in
  {| selectedFiles := validFiles;
     isUploading := isUploading st;
     error := if (0 <? length errors)%nat then JS.join ", " errors else "";
     success := success st |}.

(** [removeFile] and [clearAll], the other writers of the selection. *)
Definition removeFile (st : State) (index : nat) : State :=
  {| selectedFiles :=
       map snd (List.filter (fun p => negb (fst p =? index)%nat)
                  (combine (seq 0 (length (selectedFiles st))) (selectedFiles st)));
     isUploading := isUploading st;
     error := "";
     success := success st |}.

Definition clearAll (st : State) : State :=
  {| selectedFiles := []; isUploading := isUploading st; error := ""; success := "" |}.

(** The upload constraints in the words of the specification: a PDF by
    content type or by extension, of at most 10 MB. *)
Definition acceptable (f : File) : Prop :=
  (type f = "application/pdf" \/ JS.endsWith (JS.toLowerCase (name f)) ".pdf" = true)
  /\ size f <= 10 * 1024 * 1024.

(** Two files collide when they have the same name and the same size. *)
Definition collide (g f : File) : Prop := name g = name f /\ size g = size f.

(** [f], met after the files [pre], is the first acceptable file of its
    name and size. *)
Definition firstOfItsKind (pre : list File) (f : File) : Prop :=
  forall g, In g pre -> acceptable g -> ~ collide g f.

(** The three ways an iteration can end. *)
Inductive Visited (v : list File) (e : list string) (a : File)
  : list File * list string -> Prop :=
| VisitedUnfit reason :
    ~ acceptable a -> Visited v e a (v, e ++ [name a +:+ reason])
| VisitedAgain reason h :
    acceptable a -> In h v -> collide h a ->
    Visited v e a (v, e ++ [name a +:+ reason])
| VisitedKept :
    acceptable a -> (forall h, In h v -> ~ collide h a) ->
    Visited v e a (v ++ [a], e).

Definition fileKey (f : File) : string * Z := (name f, size f).

(** The first two tests of the loop body taken together. *)
Definition passesTests (f : File) : bool := isPDF f && negb (tooLarge f).

(** A batch of two different files that share name and size. *)
Definition reportA : File :=
  {| name := "report.pdf"; type := "application/pdf"; size := 2048; lastModified := 1 |}.
Definition reportB : File :=
  {| name := "report.pdf"; type := "application/pdf"; size := 2048; lastModified := 2 |}.
Definition labResults : File :=
  {| name := "Lab Results.PDF"; type := ""; size := 4096; lastModified := 4 |}.
Definition notes : File :=
  {| name := "a.txt"; type := "text/plain"; size := 10; lastModified := 3 |}.

End UploadPDF.

(** ** formatFileSize (the same function in UploadPDF and PDFManager)

    [bytes] is an integer below 2^53, so [bytes / Math.pow(k, i)] is an
    exact division by a power of two.  [Math.log(bytes) / Math.log(k)] is
    taken at its exact value: its floor is the base-1024 logarithm of
    [bytes], that is [Z.log2 bytes / 10].  A negative [bytes] makes every
    intermediate value [NaN]. *)
Module FileSize.

Definition k : Z := 1024.

Definition sizes : list string := ["Bytes"; "KB"; "MB"; "GB"].

(** [Math.floor(Math.log(bytes) / Math.log(k))]. *)
Definition sizeIndex (bytes : Z) : Z := Z.log2 bytes / 10.

(** [sizes[i]] converted to a string by [+]: a missing element is
    [undefined]. *)
Definition unitAt (i : Z) : string :=
  match nth_error sizes (Z.to_nat i) with
  | Some u => u
  | None => "undefined"
  end.

(** [parseFloat((bytes / d).toFixed(2))] rendered by [+ ' ']: the value
    rounded to hundredths (ties upwards), without trailing zeros. *)
Definition fixed2 (bytes d : Z) : string :=
  let n := (200 * bytes + d) / (2 * d) in
  let ip := n / 100 in
  let fp := n mod 100 in
  if fp =? 0 then JS.digits ip
  else if fp mod 10 =? 0 then JS.digits ip +:+ "." +:+ JS.digits (fp / 10)
  else if fp <? 10 then JS.digits ip +:+ ".0" +:+ JS.digits fp
  else JS.digits ip +:+ "." +:+ JS.digits fp.

Definition formatFileSize (bytes : Z) : string :=
  if bytes =? 0 then "0 Bytes"
  else if bytes <? 0 then "NaN undefined"   (* Math.log of a negative number *)
  else
    let i := sizeIndex bytes in
    fixed2 bytes (k ^ i) +:+ " " +:+ unitAt i.

End FileSize.

(** ** Chatbot component (ChatBox) *)
Module Chatbot.

Inductive Sender := user | bot.

(** A displayed message.  The optional fields [isLoading] and [isError]
    are only ever absent or [true]; absent reads as [false].  The other
    optional fields keep their value when present. *)
Record Message := mkMessage {
  sender : Sender;
  text : string;
  timestamp : string;
  isLoading : bool;
  isError : bool;
  responseTime : option Z;
  contextUsed : option bool;
  sourcesCount : option Z
}.

Record State := mkState {
  input : string;
  messages : list Message;
  loading : bool;              (* the state variable [isLoading] *)
  isLoadingHistory : bool;
  error : string
}.

Definition initial : State :=
  {| input := ""; messages := []; loading := false;
     isLoadingHistory := true; error := "" |}.

(** An exception reaching a [catch] block: an axios error carries
    [response.data.error] when the server answered, [new Error(m)] does
    not. *)
Record Thrown := mkThrown {
  response_data_error : option string;
  message : string
}.

Definition newError (m : string) : Thrown :=
  {| response_data_error := None; message := m |}.

(** Outcome of an awaited request. *)
Inductive Outcome (A : Type) :=
| Resolved (data : A)
| Rejected (e : Thrown).
Arguments Resolved {A} data.
Arguments Rejected {A} e.

(** *** loadChatHistory *)

Record HistoryPair := mkPair {
  user_message : string;
  bot_response : string;
  pair_timestamp : string;
  response_time_ms : Z
}.

Record HistoryData := mkHistoryData {
  history_success : bool;
  history_messages : list HistoryPair
}.

Definition userEntry (msg : HistoryPair) : Message :=
  {| sender := user; text := user_message msg; timestamp := pair_timestamp msg;
     isLoading := false; isError := false; responseTime := None;
     contextUsed := None; sourcesCount := None |}.

Definition botEntry (msg : HistoryPair) : Message :=
  {| sender := bot; text := bot_response msg; timestamp := pair_timestamp msg;
     isLoading := false; isError := false;
     responseTime := Some (response_time_ms msg);
     contextUsed := None; sourcesCount := None |}.

(** [response.data.messages.flatMap(msg => [user entry, bot entry])]. *)
Definition historyMessages (pairs : list HistoryPair) : list Message :=
  flat_map (fun msg => [userEntry msg; botEntry msg]) pairs.

Definition setMessages (st : State) (ms : list Message) : State :=
  {| input := input st; messages := ms; loading := loading st;
     isLoadingHistory := isLoadingHistory st; error := error st |}.

Definition setError (st : State) (e : string) : State :=
  {| input := input st; messages := messages st; loading := loading st;
     isLoadingHistory := isLoadingHistory st; error := e |}.

Definition setInput (st : State) (s : string) : State :=
  {| input := s; messages := messages st; loading := loading st;
     isLoadingHistory := isLoadingHistory st; error := error st |}.

Definition setIsLoading (st : State) (b : bool) : State :=
  {| input := input st; messages := messages st; loading := b;
     isLoadingHistory := isLoadingHistory st; error := error st |}.

Definition setIsLoadingHistory (st : State) (b : bool) : State :=
  {| input := input st; messages := messages st; loading := loading st;
     isLoadingHistory := b; error := error st |}.

(** The part of [loadChatHistory] before the [await]. *)
Definition loadChatHistory_begin (st : State) : State :=
  setIsLoadingHistory st true.

(** The part after the [await], on the state at that moment. *)
Definition loadChatHistory (st : State) (r : Outcome HistoryData) : State :=
  let st1 :=
    match r with
    | Resolved data =>
        if history_success data
        then setMessages st (historyMessages (history_messages data))
        else st
    | Rejected _ => setError st "Failed to load chat history"
    end in
  setIsLoadingHistory st1 false.

(** *** sendMessage *)

Record ChatRequest := mkChatRequest {
  req_message : string;
  req_session_id : string
}.

Record ChatData := mkChatData {
  chat_success : bool;
  reply : string;
  chat_response_time_ms : Z;
  context_used : bool;
  sources_count : Z;
  chat_error : option string
}.

Definition userMsgObj (userMessage now : string) : Message :=
  {| sender := user; text := userMessage; timestamp := now;
     isLoading := false; isError := false; responseTime := None;
     contextUsed := None; sourcesCount := None |}.

Definition loadingMsgObj (now : string) : Message :=
  {| sender := bot; text := "🤔 Thinking..."; timestamp := now;
     isLoading := true; isError := false; responseTime := None;
     contextUsed := None; sourcesCount := None |}.

Definition replyMsgObj (data : ChatData) (now : string) : Message :=
  {| sender := bot; text := reply data; timestamp := now;
     isLoading := false; isError := false;
     responseTime := Some (chat_response_time_ms data);
     contextUsed := Some (context_used data);
     sourcesCount := Some (sources_count data) |}.

Definition errorMsgObj (errorMessage now : string) : Message :=
  {| sender := bot; text := "❌ Error: " +:+ errorMessage; timestamp := now;
     isLoading := false; isError := true; responseTime := None;
     contextUsed := None; sourcesCount := None |}.

(** [prev.filter(msg => !msg.isLoading)]. *)
Definition withoutLoading (prev : list Message) : list Message :=
  List.filter (fun msg => negb (isLoading msg)) prev.

(** [error.response?.data?.error || error.message || 'Failed to get response']. *)
Definition errorMessageOf (e : Thrown) : string :=
  JS.orElse (Some (JS.orElse (response_data_error e) (message e)))
            "Failed to get response".

(** The part of [sendMessage] before the [await]: the guard, the two
    appended messages and the request handed to axios ([None] when the
    guard returns).  [now1] and [now2] are the two readings of the clock. *)
Definition sendMessage_begin (sessionId : string) (st : State) (now1 now2 : string)
  : State * option ChatRequest :=
  if negb (JS.truthy (JS.trim (input st))) || loading st then (st, None)
  else
    let userMessage := JS.trim (input st) in
    ({| input := "";
        messages := (messages st ++ [userMsgObj userMessage now1])
                      ++ [loadingMsgObj now2];
        loading := true;
        isLoadingHistory := isLoadingHistory st;
        error := "" |},
     Some {| req_message := userMessage; req_session_id := sessionId |}).

(** Outcome of the [try] block: the data of a successful reply, or the
    exception it throws. *)
Definition chatTry (r : Outcome ChatData) : ChatData + Thrown :=
  match r with
  | Resolved data =>
      if chat_success data then inl data
      else inr (newError (JS.orElse (chat_error data) "Unknown error"))
  | Rejected e => inr e
  end.

(** The part of [sendMessage] after the [await], on the state at that
    moment: the [try] block, the [catch] block and [finally]. *)
Definition sendMessage_end (st : State) (r : Outcome ChatData) (now : string) : State :=
  let st1 :=
    match chatTry r with
    | inl data =>
        setMessages st (withoutLoading (messages st) ++ [replyMsgObj data now])
    | inr e =>
        let errorMessage := errorMessageOf e in
        setError
          (setMessages st (withoutLoading (messages st) ++ [errorMsgObj errorMessage now]))
          errorMessage
    end in
  setIsLoading st1 false.


(** *** clearChat *)

(** [confirmed] is the answer of [window.confirm]; the response body of
    the DELETE request is not inspected. *)
Definition clearChat (st : State) (confirmed : bool) (r : Outcome bool) : State :=
  if confirmed then
    match r with
    | Resolved _ => setError (setMessages st []) ""
    | Rejected _ => setError st "Failed to clear chat"
    end
  else st.

(** A message that is not the loading placeholder. *)
Definition settled (m : Message) : Prop := isLoading m = false.

(** While no request is in flight the list holds no placeholder. *)
Definition quiet (st : State) : Prop :=
  loading st = false -> Forall settled (messages st).

(** At most one placeholder, in the last place, and only while a request
    is in flight. *)
Definition tidy (st : State) : Prop :=
  exists ms, Forall settled ms
    /\ (messages st = ms
        \/ (loading st = true /\ exists now, messages st = ms ++ [loadingMsgObj now])).

(** *** The component as a transition system *)

Inductive Event :=
| Typed (s : string)
| Send (now1 now2 : string)
| ChatDone (r : Outcome ChatData) (now : string)
| HistoryRequested
| HistoryDone (r : Outcome HistoryData)
| ClearDone (confirmed : bool) (r : Outcome bool)
| ErrorDismissed.

Definition step (sessionId : string) (st : State) (ev : Event) : State :=
  match ev with
  | Typed s => setInput st s
  | Send now1 now2 => fst (sendMessage_begin sessionId st now1 now2)
  | ChatDone r now => sendMessage_end st r now
  | HistoryRequested => loadChatHistory_begin st
  | HistoryDone r => loadChatHistory st r
  | ClearDone confirmed r => clearChat st confirmed r
  | ErrorDismissed => setError st ""
  end.

Definition run (sessionId : string) (evs : list Event) : State :=
  fold_left (step sessionId) evs initial.

Definition reachable (sessionId : string) (st : State) : Prop :=
  exists evs, run sessionId evs = st.

(** An input wrapped in U+00A0 and U+3000, and one made of U+00A0, U+2028,
    SPACE and U+FEFF. *)
Definition paddedQuestion : string :=
  (JS.bytes [194; 160] +:+ "fever?" +:+ JS.bytes [227; 128; 128])%nat.
Definition blankInput : string :=
  (JS.bytes [194; 160; 226; 128; 168; 32; 239; 187; 191])%nat.

(** What can happen while a request is in flight without touching the
    message list: typing, a second call of [sendMessage], a history request,
    a history load or a clear that does not succeed, a dismissed error. *)
Definition bystander (ev : Event) : Prop :=
  match ev with
  | Typed _ | Send _ _ | HistoryRequested | ErrorDismissed => True
  | HistoryDone (Resolved data) => history_success data = false
  | HistoryDone (Rejected _) => True
  | ClearDone confirmed r => confirmed = false \/ exists e, r = Rejected e
  | ChatDone _ _ => False
  end.

End Chatbot.

(** ** App and PDFManager (document list) *)
Module PDFManager.

Record PDF := mkPDF {
  id : Z;
  original_filename : string;
  file_size : Z;
  upload_time : string;
  chunk_count : Z
}.

(** The state of [App] that the document list lives in. *)
Record AppState := mkAppState {
  sessionId : string;
  uploadedPDFs : list PDF
}.

(** The state of the [PDFManager] component; [isRemoving] is an object
    used as a map from document id to flag. *)
Record State := mkState {
  isRemoving : gmap Z bool;
  error : string
}.

Record RemoveData := mkRemoveData {
  remove_success : bool;
  remove_error : option string
}.

(** [App.handlePDFRemoved]: [prev.filter(pdf => pdf.id !== pdfId)]. *)
Definition handlePDFRemoved (app : AppState) (pdfId : Z) : AppState :=
  {| sessionId := sessionId app;
     uploadedPDFs := List.filter (fun pdf => negb (id pdf =? pdfId)) (uploadedPDFs app) |}.

(** [App.handlePDFsUploaded]. *)
Definition handlePDFsUploaded (app : AppState) (newPDFs : list PDF) : AppState :=
  {| sessionId := sessionId app; uploadedPDFs := uploadedPDFs app ++ newPDFs |}.

Definition removeTry (r : Chatbot.Outcome RemoveData) : unit + Chatbot.Thrown :=
  match r with
  | Chatbot.Resolved data =>
      if remove_success data then inl tt
      else inr (Chatbot.newError (JS.orElse (remove_error data) "Failed to remove PDF"))
  | Chatbot.Rejected e => inr e
  end.

Definition removeErrorMessage (e : Chatbot.Thrown) : string :=
  JS.orElse (Some (JS.orElse (Chatbot.response_data_error e) (Chatbot.message e)))
            "Failed to remove PDF".

(** [removePDF] from the confirmation dialog to the [finally] block,
    with the parent's [onPDFRemoved] callback bound to
    [handlePDFRemoved]. *)
Definition removePDF (app : AppState) (st : State) (pdfId : Z) (filename : string)
    (confirmed : bool) (r : Chatbot.Outcome RemoveData) : AppState * State :=
  if negb confirmed then (app, st)
  else
    let removing := <[pdfId := true]> (isRemoving st) in
    match removeTry r with
    | inl _ =>
        (handlePDFRemoved app pdfId,
         {| isRemoving := <[pdfId := false]> removing; error := "" |})
    | inr e =>
        (app,
         {| isRemoving := <[pdfId := false]> removing;
            error := "Failed to remove " +:+ filename +:+ ": " +:+ removeErrorMessage e |})
    end.

Definition failedRemoval (r : Chatbot.Outcome RemoveData) : Prop :=
  match r with
  | Chatbot.Resolved data => remove_success data = false
  | Chatbot.Rejected _ => True
  end.

Definition getTotalSize (pdfs : list PDF) : Z :=
  fold_left (fun total pdf => total + file_size pdf) pdfs 0.

End PDFManager.

(** ** Chunker *)
Module Chunker.

Inductive ChunkError := InvalidChunkConfig.

Record Config := mkConfig {
  chunk_size : nat;
  overlap : nat
}.

(** Modelled from the spec: the Chunker of the back end, which is not
    among the sources.  A window of [chunk_size] characters slides over
    the text and advances by [chunk_size - overlap]; the last chunk may
    be shorter; [overlap >= chunk_size] fails with [InvalidChunkConfig];
    the empty text gives the empty sequence. *)
Definition chunker (cfg : Config) (text : string) : ChunkError + list string :=
  if (chunk_size cfg <=? overlap cfg)%nat then inl InvalidChunkConfig
  else
    let advance := (chunk_size cfg - overlap cfg)%nat in
    let len := String.length text in
    let count := ((len + advance - 1) / advance)%nat in
    inr (map (fun i => substring (i * advance) (chunk_size cfg) text) (seq 0 count)).

(** A text of [n] characters. *)
Definition filler (n : nat) : string := string_of_list_ascii (repeat "x"%char n).

End Chunker.

(** ** Chunk store and retriever *)
Module Retrieval.

Definition SessionId := string.
Definition DocId := nat.

Inductive StoreError := NotFound.

Section Pipeline.

(** The embedding model and the similarity metric are injected
    capabilities; scores are compared on an integer scale. *)
Variable Vector : Type.
Variable embed : string -> Vector.
Variable similarity : Vector -> Vector -> Z.

(** Modelled from the spec: the entities of the data model (Document,
    Chunk, Message) and their tables, which live in the back end, not
    among the sources.  A document refers to its session, a chunk row to
    its document and session, a message to its session. *)
Record Document := mkDocument {
  doc_session : SessionId;
  original_filename : string;
  byte_size : Z;
  upload_time : Z
}.

Record Chunk := mkChunk {
  sequence_index : nat;
  content : string;
  embedding : Vector
}.

(** One row of the chunk table, as written by [put]. *)
Record ChunkRow := mkChunkRow {
  row_session : SessionId;
  row_document : DocId;
  row_chunk : Chunk
}.

Record Message := mkMessage {
  msg_session : SessionId;
  user_text : string;
  bot_text : string;
  msg_timestamp : Z
}.

Record Store := mkStore {
  sessions : gset string;
  documents : gmap nat Document;
  next_document : DocId;
  chunks : list ChunkRow;
  messages : list Message
}.

Definition empty : Store :=
  {| sessions := ∅; documents := ∅; next_document := 0%nat;
     chunks := []; messages := [] |}.

(** Modelled from the spec: the persistence layer of the back end,
    which is not among the sources.  Tables mirror the entities;
    foreign keys tie a document to its session and a chunk to its
    document; identifiers of documents are handed out in creation
    order; an unknown session or document is [NotFound]. *)
Definition createSession (st : Store) (s : SessionId) : Store :=
  {| sessions := {[ s ]} ∪ sessions st; documents := documents st;
     next_document := next_document st; chunks := chunks st;
     messages := messages st |}.

(** Modelled from the spec: creation of a Document on upload, absent from
    the sources; the session must exist, the identifier is the next one
    in creation order. *)
Definition addDocument (st : Store) (s : SessionId) (filename : string)
    (bytes time : Z) : StoreError + (Store * DocId) :=
  if decide (s ∈ sessions st) then
    let d := next_document st in
    inr ({| sessions := sessions st;
            documents := <[ d := mkDocument s filename bytes time ]> (documents st);
            next_document := S d; chunks := chunks st;
            messages := messages st |}, d)
  else inl NotFound.

(** Modelled from the spec: the foreign-key check of the persistence
    layer, absent from the sources: the document exists and refers to the
    session. *)
Definition ownsDocument (st : Store) (s : SessionId) (d : DocId) : bool :=
  match documents st !! d with
  | Some doc => String.eqb (doc_session doc) s
  | None => false
  end.

(** Modelled from the spec: [put(sessionId, documentId, chunk, vector)]
    of the Chunk Store, absent from the sources; it persists one row
    scoped to session and document. *)
Definition put (st : Store) (s : SessionId) (d : DocId) (seq_index : nat)
    (text : string) (v : Vector) : StoreError + Store :=
  if ownsDocument st s d then
    inr {| sessions := sessions st; documents := documents st;
           next_document := next_document st;
           chunks := chunks st ++ [mkChunkRow s d (mkChunk seq_index text v)];
           messages := messages st |}
  else inl NotFound.

(** Modelled from the spec: [deleteDocument(sessionId, documentId)] of
    the Chunk Store, absent from the sources; it removes the document
    and all of its chunks. *)
Definition deleteDocument (st : Store) (s : SessionId) (d : DocId)
  : StoreError + Store :=
  if ownsDocument st s d then
    inr {| sessions := sessions st; documents := delete d (documents st);
           next_document := next_document st;
           chunks := List.filter (fun r => negb (row_document r =? d)%nat) (chunks st);
           messages := messages st |}
  else inl NotFound.

(** Modelled from the spec: [append] of the Conversation Store, absent
    from the sources; the session must exist. *)
Definition append (st : Store) (m : Message) : StoreError + Store :=
  if decide (msg_session m ∈ sessions st) then
    inr {| sessions := sessions st; documents := documents st;
           next_document := next_document st; chunks := chunks st;
           messages := messages st ++ [m] |}
  else inl NotFound.

(** Modelled from the spec: [clear(sessionId)] of the Conversation Store,
    absent from the sources. *)
Definition clear (st : Store) (s : SessionId) : Store :=
  {| sessions := sessions st; documents := documents st;
     next_document := next_document st; chunks := chunks st;
     messages := List.filter (fun m => negb (String.eqb (msg_session m) s)) (messages st) |}.

(** Modelled from the spec: [history(sessionId)] of the Conversation
    Store, absent from the sources. *)
Definition history (st : Store) (s : SessionId) : list Message :=
  List.filter (fun m => String.eqb (msg_session m) s) (messages st).

(** Modelled from the spec: the ranking of the Chunk Store, absent from
    the sources: higher similarity first; on a tie the lower sequence
    index, then the document created first. *)
Definition ranksBefore (q : Vector) (a b : ChunkRow) : bool :=
  let sa := similarity q (embedding (row_chunk a)) in
  let sb := similarity q (embedding (row_chunk b)) in
  if sb <? sa then true
  else if sa <? sb then false
  else if (sequence_index (row_chunk a) <? sequence_index (row_chunk b))%nat then true
  else if (sequence_index (row_chunk b) <? sequence_index (row_chunk a))%nat then false
  else (row_document a <=? row_document b)%nat.

Fixpoint insertRanked (q : Vector) (r : ChunkRow) (rs : list ChunkRow) : list ChunkRow :=
  match rs with
  | [] => [r]
  | x :: rs' => if ranksBefore q r x then r :: x :: rs' else x :: insertRanked q r rs'
  end.

Definition rank (q : Vector) (rs : list ChunkRow) : list ChunkRow :=
  fold_right (insertRanked q) [] rs.

(** Modelled from the spec: [query(sessionId, vector, k)] of the Chunk
    Store, absent from the sources: a linear scan over the rows of the
    session, ranked, cut at [k]. *)
Definition query (st : Store) (s : SessionId) (q : Vector) (k : nat) : list ChunkRow :=
  firstn k (rank q (List.filter (fun r => String.eqb (row_session r) s) (chunks st))).

(** Modelled from the spec: [retrieve(sessionId, queryText, k)] of the
    Retriever, absent from the sources: embed the text, query the
    store, report [(chunkText, documentId, similarityScore)]. *)
Definition retrieve (st : Store) (s : SessionId) (queryText : string) (k : nat)
  : list (string * DocId * Z) :=
  let q := embed queryText in
  map (fun r => (content (row_chunk r), row_document r,
                 similarity q (embedding (row_chunk r))))
      (query st s q k).

(** Operations of the persistence layer, and the stores they build. *)
Inductive Op :=
| OpCreateSession (s : SessionId)
| OpAddDocument (s : SessionId) (filename : string) (bytes time : Z)
| OpPut (s : SessionId) (d : DocId) (seq_index : nat) (text : string) (v : Vector)
| OpDeleteDocument (s : SessionId) (d : DocId)
| OpAppend (m : Message)
| OpClear (s : SessionId).

(** A failed operation leaves the store as it was. *)
Definition apply (st : Store) (op : Op) : Store :=
  match op with
  | OpCreateSession s => createSession st s
  | OpAddDocument s f b t =>
      match addDocument st s f b t with inr (st', _) => st' | inl _ => st end
  | OpPut s d i t v =>
      match put st s d i t v with inr st' => st' | inl _ => st end
  | OpDeleteDocument s d =>
      match deleteDocument st s d with inr st' => st' | inl _ => st end
  | OpAppend m =>
      match append st m with inr st' => st' | inl _ => st end
  | OpClear s => clear st s
  end.

Definition build (ops : list Op) : Store := fold_left apply ops empty.

(** Ownership, in the words of the data model: a session owns a
    document through the document's session reference, and a chunk
    through the chunk's document. *)
Definition ownsDoc (st : Store) (s : SessionId) (d : DocId) : Prop :=
  exists doc, documents st !! d = Some doc /\ doc_session doc = s.

(** Every row points to a document of the row's session, documents
    belong to known sessions and carry identifiers already handed out,
    messages belong to known sessions. *)
Record consistent (st : Store) : Prop := mkConsistent {
  rows_owned : forall r, In r (chunks st) -> ownsDoc st (row_session r) (row_document r);
  docs_issued : forall d doc, documents st !! d = Some doc ->
                  (d < next_document st)%nat /\ doc_session doc ∈ sessions st;
  msgs_owned : forall m, In m (messages st) -> msg_session m ∈ sessions st
}.

End Pipeline.

Arguments sequence_index {Vector} _.
Arguments content {Vector} _.
Arguments embedding {Vector} _.
Arguments row_session {Vector} _.
Arguments row_document {Vector} _.
Arguments row_chunk {Vector} _.
Arguments sessions {Vector} _.
Arguments documents {Vector} _.
Arguments next_document {Vector} _.
Arguments chunks {Vector} _.
Arguments messages {Vector} _.
Arguments empty {Vector}.
Arguments createSession {Vector} st s.
Arguments addDocument {Vector} st s filename bytes time.
Arguments ownsDocument {Vector} st s d.
Arguments put {Vector} st s d seq_index text v.
Arguments deleteDocument {Vector} st s d.
Arguments append {Vector} st m.
Arguments clear {Vector} st s.
Arguments history {Vector} st s.
Arguments ranksBefore {Vector} similarity q a b.
Arguments insertRanked {Vector} similarity q r rs.
Arguments rank {Vector} similarity q rs.
Arguments query {Vector} similarity st s q k.
Arguments retrieve {Vector} embed similarity st s queryText k.
Arguments OpCreateSession {Vector} s.
Arguments OpAddDocument {Vector} s filename bytes time.
Arguments OpPut {Vector} s d seq_index text v.
Arguments OpDeleteDocument {Vector} s d.
Arguments OpAppend {Vector} m.
Arguments OpClear {Vector} s.
Arguments apply {Vector} st op.
Arguments build {Vector} ops.
Arguments ownsDoc {Vector} st s d.
Arguments consistent {Vector} st.

(** A store with two sessions, one document each, and the toy embedding
    used to exercise it: a text is embedded as its length and two
    vectors are the closer the smaller their difference. *)
Definition toyEmbed (t : string) : Z := Z.of_nat (String.length t).
Definition toySimilarity (a b : Z) : Z := - Z.abs (a - b).
Definition twoSessions : list (Op Z) :=
  [ OpCreateSession "A"; OpCreateSession "B";
    OpAddDocument "A" "a.pdf" 100 1; OpAddDocument "B" "b.pdf" 200 2;
    OpPut "A" 0%nat 0%nat "fever" 5; OpPut "B" 1%nat 0%nat "cough" 5;
    OpPut "A" 0%nat 1%nat "rash on arm" 11; OpPut "B" 0%nat 0%nat "stray" 5 ].

End Retrieval.

(** ** UploadPDF component: the upload itself

    Response bodies are taken as the server sends them: [uploaded_pdfs] is
    a list whenever [success] is true. *)
Module HandleUpload.

Inductive Status := uploading | completed | failed.

Record Progress := mkProgress {
  status : Status;
  progress : Z
}.

(** The whole state of the component: the part [UploadPDF.State] holds,
    and [uploadProgress], an object used as a map from file name to
    progress. *)
Record Component := mkComponent {
  base : UploadPDF.State;
  uploadProgress : gmap string Progress
}.

Definition initial : Component :=
  {| base := UploadPDF.initial; uploadProgress := ∅ |}.

Definition setBase (c : Component) (b : UploadPDF.State) : Component :=
  {| base := b; uploadProgress := uploadProgress c |}.

Definition setError (c : Component) (e : string) : Component :=
  setBase c {| UploadPDF.selectedFiles := UploadPDF.selectedFiles (base c);
               UploadPDF.isUploading := UploadPDF.isUploading (base c);
               UploadPDF.error := e;
               UploadPDF.success := UploadPDF.success (base c) |}.

Definition setSuccess (c : Component) (m : string) : Component :=
  setBase c {| UploadPDF.selectedFiles := UploadPDF.selectedFiles (base c);
               UploadPDF.isUploading := UploadPDF.isUploading (base c);
               UploadPDF.error := UploadPDF.error (base c);
               UploadPDF.success := m |}.

Definition setIsUploading (c : Component) (b : bool) : Component :=
  setBase c {| UploadPDF.selectedFiles := UploadPDF.selectedFiles (base c);
               UploadPDF.isUploading := b;
               UploadPDF.error := UploadPDF.error (base c);
               UploadPDF.success := UploadPDF.success (base c) |}.

Definition setSelectedFiles (c : Component) (fs : list UploadPDF.File) : Component :=
  setBase c {| UploadPDF.selectedFiles := fs;
               UploadPDF.isUploading := UploadPDF.isUploading (base c);
               UploadPDF.error := UploadPDF.error (base c);
               UploadPDF.success := UploadPDF.success (base c) |}.

Definition setUploadProgress (c : Component) (m : gmap string Progress) : Component :=
  {| base := base c; uploadProgress := m |}.

(** [files.forEach(file => setUploadProgress(prev => ({...prev,
    [file.name]: {status, progress}})))]. *)
Definition markAll (files : list UploadPDF.File) (p : Progress)
    (m : gmap string Progress) : gmap string Progress :=
  fold_left (fun prev file => <[UploadPDF.name file := p]> prev) files m.

Record UploadRequest := mkUploadRequest {
  form_session_id : string;
  form_files : list UploadPDF.File
}.

Record UploadData := mkUploadData {
  upload_success : bool;
  uploaded_pdfs : list PDFManager.PDF;
  warnings : option (list string);
  upload_error : option string
}.

(** The part of [handleUpload] before the [await]: the two guards, the
    reset of the messages, the progress entries and the request ([None]
    when a guard returns). *)
Definition handleUpload_begin (sessionId : string) (c : Component)
  : Component * option UploadRequest :=
  let selectedFiles := UploadPDF.selectedFiles (base c) in
  if (length selectedFiles =? 0)%nat then
    (setError c "Please select at least one PDF file", None)
  else if negb (JS.truthy sessionId) then
    (setError c "Session not initialized", None)
  else
    let c1 := setUploadProgress
                (setSuccess (setError (setIsUploading c true) "") "") ∅ in
    (setUploadProgress c1
       (markAll selectedFiles (mkProgress uploading 0) (uploadProgress c1)),
     Some {| form_session_id := sessionId; form_files := selectedFiles |}).

(** The [onUploadProgress] callback; [selectedFiles] is the selection the
    handler was started with. *)
Definition onUploadProgress (c : Component) (selectedFiles : list UploadPDF.File)
    (percentCompleted : Z) : Component :=
  setUploadProgress c
    (markAll selectedFiles (mkProgress uploading percentCompleted) (uploadProgress c)).

Definition uploadTry (r : Chatbot.Outcome UploadData) : UploadData + Chatbot.Thrown :=
  match r with
  | Chatbot.Resolved data =>
      if upload_success data then inl data
      else inr (Chatbot.newError (JS.orElse (upload_error data) "Upload failed"))
  | Chatbot.Rejected e => inr e
  end.

Definition uploadErrorMessage (e : Chatbot.Thrown) : string :=
  JS.orElse (Some (JS.orElse (Chatbot.response_data_error e) (Chatbot.message e)))
            "Upload failed".

Definition successMessage (n : nat) : string :=
  "Successfully uploaded " +:+ JS.digits (Z.of_nat n) +:+ " PDF"
    +:+ (if (n =? 1)%nat then "" else "s").

(** The part of [handleUpload] after the [await], on the state at that
    moment; [selectedFiles] is the selection the handler was started with.
    The second component is the argument handed to the parent's
    [onPDFsUploaded], when it is called. *)
Definition handleUpload_end (c : Component) (selectedFiles : list UploadPDF.File)
    (r : Chatbot.Outcome UploadData) : Component * option (list PDFManager.PDF) :=
  let '(c1, notified) :=
    match uploadTry r with
    | inl data =>
        let uploadedPDFs := uploaded_pdfs data in
        let c2 := setUploadProgress c
                    (markAll selectedFiles (mkProgress completed 100) (uploadProgress c)) in
        let c3 := setSuccess c2 (successMessage (length uploadedPDFs)) in
        let c4 := setSelectedFiles c3 [] in
        let c5 :=
          match warnings data with
          | Some ws =>
              if (0 <? length ws)%nat
              then setError c4 ("Warnings: " +:+ JS.join ", " ws)
              else c4
          | None => c4
          end in
        (c5, Some uploadedPDFs)
    | inr e =>
        let c2 := setUploadProgress c
                    (markAll selectedFiles (mkProgress failed 0) (uploadProgress c)) in
        (setError c2 (uploadErrorMessage e), None)
    end in
  (setIsUploading c1 false, notified).

(** The component as a transition system: the handlers, the two timers
    and the button that dismisses the error. *)
Inductive Event :=
| FileChange (files : list UploadPDF.File)
| RemoveFile (index : nat)
| ClearAll
| UploadClicked
| UploadProgressed (selectedFiles : list UploadPDF.File) (percentCompleted : Z)
| UploadDone (selectedFiles : list UploadPDF.File) (r : Chatbot.Outcome UploadData)
| SuccessExpired
| ProgressExpired
| ErrorDismissed.

Definition step (sessionId : string) (c : Component) (ev : Event) : Component :=
  match ev with
  | FileChange files => setBase c (UploadPDF.handleFileChange (base c) files)
  | RemoveFile index => setBase c (UploadPDF.removeFile (base c) index)
  | ClearAll => setBase c (UploadPDF.clearAll (base c))
  | UploadClicked => fst (handleUpload_begin sessionId c)
  | UploadProgressed fs pct => onUploadProgress c fs pct
  | UploadDone fs r => fst (handleUpload_end c fs r)
  | SuccessExpired => setSuccess c ""
  | ProgressExpired => setUploadProgress c ∅
  | ErrorDismissed => setError c ""
  end.

Definition run (sessionId : string) (evs : list Event) : Component :=
  fold_left (step sessionId) evs initial.

Definition reachable (sessionId : string) (c : Component) : Prop :=
  exists evs, run sessionId evs = c.

(** The selection holds checked files only, no two of the same name and
    size. *)
Definition sound (c : Component) : Prop :=
  (forall f, In f (UploadPDF.selectedFiles (base c)) -> UploadPDF.acceptable f)
  /\ NoDup (map UploadPDF.fileKey (UploadPDF.selectedFiles (base c))).

(** An upload fails when the request is rejected or the response says
    [success = false]. *)
Definition failedUpload (r : Chatbot.Outcome UploadData) : Prop :=
  match r with
  | Chatbot.Resolved data => upload_success data = false
  | Chatbot.Rejected _ => True
  end.

End HandleUpload.

(** ** Chatbot component: formatBotText

    The three [replace] calls.  In the first two the pattern is a
    delimiter, a lazy run of characters other than line terminators, and the
    delimiter again; the search for a match restarts one character further
    when it fails, and after the match when it succeeds. *)
Module BotText.

Definition LF : string := String (ascii_of_nat 10) EmptyString.
Definition CR : string := String (ascii_of_nat 13) EmptyString.
(** U+2028 and U+2029, as encoded in the string. *)
Definition LS : string :=
  String (ascii_of_nat 226) (String (ascii_of_nat 128) (String (ascii_of_nat 168) EmptyString)).
Definition PS : string :=
  String (ascii_of_nat 226) (String (ascii_of_nat 128) (String (ascii_of_nat 169) EmptyString)).

(** [s] begins with [p]. *)
Fixpoint startsWith (p s : string) : bool :=
  match p, s with
  | EmptyString, _ => true
  | String _ _, EmptyString => false
  | String a p', String b s' => Ascii.eqb a b && startsWith p' s'
  end.

(** The characters [.] does not match. *)
Definition lineTerminatorAhead (s : string) : bool :=
  startsWith LF s || startsWith CR s || startsWith LS s || startsWith PS s.

Fixpoint dropChars (n : nat) (s : string) : string :=
  match n, s with
  | O, _ => s
  | S n', EmptyString => EmptyString
  | S n', String _ s' => dropChars n' s'
  end.

(** [(.*?)delim] matched at the head of [s]: the capture and what follows
    the match. *)
Fixpoint findClose (delim : string) (s : string) : option (string * string) :=
  if startsWith delim s then Some (EmptyString, dropChars (String.length delim) s)
  else
    match s with
    | EmptyString => None
    | String c s' =>
        if lineTerminatorAhead s then None
        else
          match findClose delim s' with
          | Some (capture, after) => Some (String c capture, after)
          | None => None
          end
    end.

(** [s.replace(/delim(.*?)delim/g, opening + "$1" + closing)]; each step
    consumes at least one character, so [fuel] is the length of [s]. *)
Fixpoint replaceAllFrom (fuel : nat) (delim opening closing : string) (s : string)
  : string :=
  match fuel with
  | O => s
  | S fuel' =>
      match s with
      | EmptyString => EmptyString
      | String c s' =>
          if startsWith delim s then
            match findClose delim (dropChars (String.length delim) s) with
            | Some (capture, after) =>
                opening +:+ capture +:+ closing
                  +:+ replaceAllFrom fuel' delim opening closing after
            | None => String c (replaceAllFrom fuel' delim opening closing s')
            end
          else String c (replaceAllFrom fuel' delim opening closing s')
      end
  end.

Definition replaceAll (delim opening closing : string) (s : string) : string :=
  replaceAllFrom (String.length s) delim opening closing s.

(** [s.replace(/\n/g, "<br/>")]. *)
Fixpoint replaceNewlines (s : string) : string :=
  match s with
  | EmptyString => EmptyString
  | String c s' =>
      if Ascii.eqb c (ascii_of_nat 10) then "<br/>" +:+ replaceNewlines s'
      else String c (replaceNewlines s')
  end.

Definition formatBotText (text : string) : string :=
  replaceNewlines
    (replaceAll "*" "<em>" "</em>"
       (replaceAll "**" "<strong>" "</strong>" text)).

(** A string without the character [c]. *)
Definition without (c : ascii) (s : string) : Prop :=
  ~ In c (list_ascii_of_string s).

(** A string that [.*] can run through: no suffix starts with a line
    terminator. *)
Fixpoint oneLine (s : string) : Prop :=
  match s with
  | EmptyString => True
  | String _ s' => lineTerminatorAhead s = false /\ oneLine s'
  end.

Definition star : ascii := "*"%char.

End BotText.

(** ** App component: session handling *)
Module App.

Definition storageKey : string := "medical_chatbot_session".

Record SessionData := mkSessionData {
  session_id : string;
  created_at : string;
  last_activity : string;
  pdf_count : Z;
  message_count : Z
}.

(** The state of [App] together with the browser's [localStorage]. *)
Record State := mkState {
  sessionId : string;
  uploadedPDFs : list PDFManager.PDF;
  isLoading : bool;
  error : string;
  sessionInfo : option SessionData;
  localStorage : gmap string string
}.

(** The component when it mounts, over the storage left by earlier
    visits. *)
Definition mount (storage : gmap string string) : State :=
  {| sessionId := ""; uploadedPDFs := []; isLoading := true; error := "";
     sessionInfo := None; localStorage := storage |}.

Definition setIsLoading (st : State) (b : bool) : State :=
  {| sessionId := sessionId st; uploadedPDFs := uploadedPDFs st; isLoading := b;
     error := error st; sessionInfo := sessionInfo st; localStorage := localStorage st |}.

Definition setError (st : State) (e : string) : State :=
  {| sessionId := sessionId st; uploadedPDFs := uploadedPDFs st; isLoading := isLoading st;
     error := e; sessionInfo := sessionInfo st; localStorage := localStorage st |}.

Definition setSessionId (st : State) (s : string) : State :=
  {| sessionId := s; uploadedPDFs := uploadedPDFs st; isLoading := isLoading st;
     error := error st; sessionInfo := sessionInfo st; localStorage := localStorage st |}.

Definition setUploadedPDFs (st : State) (pdfs : list PDFManager.PDF) : State :=
  {| sessionId := sessionId st; uploadedPDFs := pdfs; isLoading := isLoading st;
     error := error st; sessionInfo := sessionInfo st; localStorage := localStorage st |}.

Definition setSessionInfo (st : State) (i : option SessionData) : State :=
  {| sessionId := sessionId st; uploadedPDFs := uploadedPDFs st; isLoading := isLoading st;
     error := error st; sessionInfo := i; localStorage := localStorage st |}.

Definition setStorage (st : State) (m : gmap string string) : State :=
  {| sessionId := sessionId st; uploadedPDFs := uploadedPDFs st; isLoading := isLoading st;
     error := error st; sessionInfo := sessionInfo st; localStorage := m |}.

(** [localStorage.getItem(key)], read as a condition: [null] and the empty
    string are falsy. *)
Definition storedSession (st : State) : option string :=
  match localStorage st !! storageKey with
  | Some stored => if JS.truthy stored then Some stored else None
  | None => None
  end.

(** The part of [initializeSession] before any [await]: with a stored
    session the function runs to its [finally] block; without one it waits
    for [createNewSession] (second component [true]). *)
Definition initializeSession (st : State) : State * bool :=
  let st1 := setIsLoading st true in
  match storedSession st1 with
  | Some stored => (setIsLoading (setSessionId st1 stored) false, false)
  | None => (st1, true)
  end.

(** [createNewSession] after its [await]: [None] when it rethrows. *)
Definition createNewSession (st : State) (r : Chatbot.Outcome string) : option State :=
  match r with
  | Chatbot.Resolved newSessionId =>
      Some (setStorage (setSessionId st newSessionId)
              (<[storageKey := newSessionId]> (localStorage st)))
  | Chatbot.Rejected _ => None
  end.

(** The rest of [initializeSession] once [createNewSession] has settled. *)
Definition initializeSession_end (st : State) (r : Chatbot.Outcome string) : State :=
  let st1 :=
    match createNewSession st r with
    | Some st' => st'
    | None => setError st "Failed to initialize session"
    end in
  setIsLoading st1 false.

(** [handleNewSession] up to its [await]; [confirmed] is the answer of
    [window.confirm]; the second component tells whether
    [createNewSession] was called. *)
Definition handleNewSession (st : State) (confirmed : bool) : State * bool :=
  if confirmed then
    let st1 := setIsLoading st true in
    let st2 := setStorage st1 (delete storageKey (localStorage st1)) in
    (setError (setSessionInfo (setUploadedPDFs (setSessionId st2 "") []) None) "", true)
  else (st, false).

Definition handleNewSession_end (st : State) (r : Chatbot.Outcome string) : State :=
  let st1 :=
    match createNewSession st r with
    | Some st' => st'
    | None => setError st "Failed to create new session"
    end in
  setIsLoading st1 false.

Record PDFsData := mkPDFsData {
  pdfs_success : bool;
  pdfs : list PDFManager.PDF
}.

Record InfoData := mkInfoData {
  info_success : bool;
  session : SessionData
}.

(** [loadSessionPDFs] and [loadSessionInfo] after their [await]; a failure
    is logged and nothing else. *)
Definition loadSessionPDFs (st : State) (r : Chatbot.Outcome PDFsData) : State :=
  match r with
  | Chatbot.Resolved data =>
      if pdfs_success data then setUploadedPDFs st (pdfs data) else st
  | Chatbot.Rejected _ => st
  end.

Definition loadSessionInfo (st : State) (r : Chatbot.Outcome InfoData) : State :=
  match r with
  | Chatbot.Resolved data =>
      if info_success data then setSessionInfo st (Some (session data)) else st
  | Chatbot.Rejected _ => st
  end.

(** The document list seen by [PDFManager]. *)
Definition documents (st : State) : PDFManager.AppState :=
  {| PDFManager.sessionId := sessionId st; PDFManager.uploadedPDFs := uploadedPDFs st |}.

Definition handlePDFsUploaded (st : State) (newPDFs : list PDFManager.PDF) : State :=
  setUploadedPDFs st
    (PDFManager.uploadedPDFs (PDFManager.handlePDFsUploaded (documents st) newPDFs)).

Definition handlePDFRemoved (st : State) (pdfId : Z) : State :=
  setUploadedPDFs st
    (PDFManager.uploadedPDFs (PDFManager.handlePDFRemoved (documents st) pdfId)).

(** [handleClearSession] from the confirmation to [finally]; [r] is the
    outcome of the DELETE request and [info] that of the refresh that
    follows a success. *)
Definition handleClearSession (st : State) (confirmed : bool)
    (r : Chatbot.Outcome bool) (info : Chatbot.Outcome InfoData) : State :=
  if confirmed then
    let st1 := setIsLoading st true in
    let st2 :=
      match r with
      | Chatbot.Resolved _ =>
          loadSessionInfo (setSessionInfo (setUploadedPDFs st1 []) None) info
      | Chatbot.Rejected _ => setError st1 "Failed to clear session data"
      end in
    setIsLoading st2 false
  else st.

Inductive Event :=
| Initialized
| InitializeDone (r : Chatbot.Outcome string)
| NewSessionClicked (confirmed : bool)
| NewSessionDone (r : Chatbot.Outcome string)
| PDFsLoaded (r : Chatbot.Outcome PDFsData)
| InfoLoaded (r : Chatbot.Outcome InfoData)
| PDFsUploaded (newPDFs : list PDFManager.PDF)
| PDFRemoved (pdfId : Z)
| ClearSession (confirmed : bool) (r : Chatbot.Outcome bool) (info : Chatbot.Outcome InfoData).

Definition step (st : State) (ev : Event) : State :=
  match ev with
  | Initialized => fst (initializeSession st)
  | InitializeDone r => initializeSession_end st r
  | NewSessionClicked confirmed => fst (handleNewSession st confirmed)
  | NewSessionDone r => handleNewSession_end st r
  | PDFsLoaded r => loadSessionPDFs st r
  | InfoLoaded r => loadSessionInfo st r
  | PDFsUploaded newPDFs => handlePDFsUploaded st newPDFs
  | PDFRemoved pdfId => handlePDFRemoved st pdfId
  | ClearSession confirmed r info => handleClearSession st confirmed r info
  end.

Definition run (storage : gmap string string) (evs : list Event) : State :=
  fold_left step evs (mount storage).

(** The session in use is the one kept in the storage. *)
Definition persisted (st : State) : Prop :=
  sessionId st = "" \/ localStorage st !! storageKey = Some (sessionId st).

End App.

(** ** SessionInfo component: getSessionDuration

    [created] and [lastActivity] are the two dates in milliseconds, [None]
    for a string that [new Date] cannot read; their difference is then
    [NaN], which fails both comparisons.  [%] is the remainder that takes
    the sign of the dividend.  Durations stay below 2^53 milliseconds,
    where the two divisions and the remainder are exact. *)
Module SessionInfo.

Definition getSessionDuration (created lastActivity : option Z) : string :=
  match created, lastActivity with
  | Some c, Some l =>
      let durationMs := l - c in
      let hours := durationMs / (1000 * 60 * 60) in
      let minutes := Z.rem durationMs (1000 * 60 * 60) / (1000 * 60) in
      if 0 <? hours then JS.digits hours +:+ "h " +:+ JS.digits minutes +:+ "m"
      else if 0 <? minutes then JS.digits minutes +:+ " minutes"
      else "Just started"
  | _, _ => "Just started"
  end.

End SessionInfo.

(** * Properties *)

(** ** Strings *)

Lemma append_nil (b : string) : "" +:+ b = b.
Proof. reflexivity. Qed.

Lemma append_cons x (a b : string) : String x a +:+ b = String x (a +:+ b).
Proof. reflexivity. Qed.

Lemma append_empty_r (s : string) : s +:+ "" = s.
Proof. induction s as [|c s IH]; [reflexivity|]. rewrite append_cons, IH. reflexivity. Qed.

Lemma length_append_s (a b : string) :
  String.length (a +:+ b) = (String.length a + String.length b)%nat.
Proof.
  induction a as [|x a IH]; [reflexivity|].
  rewrite append_cons. cbn [String.length]. rewrite IH. reflexivity.
Qed.

Lemma append_assoc_s (a b c : string) : (a +:+ b) +:+ c = a +:+ (b +:+ c).
Proof.
  induction a as [|x a IH]; [reflexivity|].
  rewrite !append_cons, IH. reflexivity.
Qed.

(** ** White space and [trim] *)

Lemma startsWith_split p : forall s,
  JS.startsWith p s = true -> s = p +:+ JS.dropChars (String.length p) s.
Proof.
  induction p as [|a p IH]; intros s H; [reflexivity|].
  destruct s as [|b s]; [discriminate|].
  cbn [JS.startsWith] in H. apply andb_true_iff in H. destruct H as [Hab H].
  apply Ascii.eqb_eq in Hab. subst b.
  rewrite append_cons. cbn [String.length JS.dropChars]. f_equal. apply IH. exact H.
Qed.

Lemma stripAny_sound ws : forall s rest,
  JS.stripAny ws s = Some rest -> exists w, In w ws /\ s = w +:+ rest.
Proof.
  induction ws as [|w ws IH]; intros s rest H; [discriminate|].
  cbn [JS.stripAny] in H. destruct (JS.startsWith w s) eqn:E.
  - inversion H; subst. exists w. split; [left; reflexivity|].
    apply startsWith_split. exact E.
  - destruct (IH _ _ H) as (w' & Hin & Hs). exists w'.
    split; [right; assumption | assumption].
Qed.

(** No white space begins like another one: what follows a white space is
    what [stripAny] leaves. *)
Lemma stripAny_whiteSpace w rest :
  In w JS.whiteSpaces -> JS.stripAny JS.whiteSpaces (w +:+ rest) = Some rest.
Proof.
  intros H. unfold JS.whiteSpaces in H. cbn [In] in H.
  repeat (destruct H as [<-|H]; [vm_compute; reflexivity|]). destruct H.
Qed.

Lemma whiteSpace_length w :
  In w JS.whiteSpaces -> (1 <= String.length w <= 3)%nat.
Proof.
  intros H. unfold JS.whiteSpaces in H. cbn [In] in H.
  repeat (destruct H as [<-|H]; [vm_compute; split; repeat constructor|]). destruct H.
Qed.

Lemma blank_app p q : JS.blank p -> JS.blank q -> JS.blank (p +:+ q).
Proof.
  induction 1 as [|w s Hw Hs IH]; intros Hq; [exact Hq|].
  rewrite append_assoc_s. constructor; [assumption | apply IH; assumption].
Qed.

Lemma trimStartFrom_blank s :
  JS.blank s -> forall fuel, (String.length s <= fuel)%nat -> JS.trimStartFrom fuel s = "".
Proof.
  induction 1 as [|w s Hw Hs IH]; intros fuel Hf.
  - destruct fuel; reflexivity.
  - rewrite length_append_s in Hf. pose proof (whiteSpace_length w Hw) as Hl.
    destruct fuel as [|fuel]; [lia|]. cbn [JS.trimStartFrom].
    rewrite stripAny_whiteSpace by assumption. apply IH. lia.
Qed.

Lemma trimStart_blank s : JS.blank s -> JS.trimStart s = "".
Proof. intros H. apply trimStartFrom_blank; [assumption | lia]. Qed.

(** What [trimStart] takes away is white space. *)
Lemma trimStartFrom_split : forall fuel s,
  exists p, JS.blank p /\ s = p +:+ JS.trimStartFrom fuel s.
Proof.
  induction fuel as [|fuel IH]; intros s.
  - exists "". split; [constructor | reflexivity].
  - cbn [JS.trimStartFrom].
    destruct (JS.stripAny JS.whiteSpaces s) as [rest|] eqn:E.
    + apply stripAny_sound in E. destruct E as (w & Hw & ->).
      destruct (IH rest) as (p & Hp & Hr). exists (w +:+ p).
      split; [constructor; assumption|].
      rewrite append_assoc_s. f_equal. exact Hr.
    + exists "". split; [constructor | reflexivity].
Qed.

(** What [trimStart] leaves does not begin with white space. *)
Lemma trimStartFrom_clean : forall fuel s,
  (String.length s <= fuel)%nat ->
  JS.stripAny JS.whiteSpaces (JS.trimStartFrom fuel s) = None.
Proof.
  induction fuel as [|fuel IH]; intros s Hf.
  - destruct s; [reflexivity | simpl in Hf; lia].
  - cbn [JS.trimStartFrom].
    destruct (JS.stripAny JS.whiteSpaces s) as [rest|] eqn:E; [|exact E].
    apply stripAny_sound in E. destruct E as (w & Hw & ->).
    rewrite length_append_s in Hf. pose proof (whiteSpace_length w Hw).
    apply IH. lia.
Qed.

Lemma trimStart_empty_blank s : JS.trimStart s = "" -> JS.blank s.
Proof.
  intros H. destruct (trimStartFrom_split (String.length s) s) as (p & Hp & Hs).
  fold (JS.trimStart s) in Hs. rewrite H, append_empty_r in Hs. subst p. exact Hp.
Qed.

Lemma allWhiteSpace_blank s : JS.allWhiteSpace s = true <-> JS.blank s.
Proof.
  unfold JS.allWhiteSpace. rewrite String.eqb_eq.
  split; [apply trimStart_empty_blank | apply trimStart_blank].
Qed.

(** What [trimEnd] takes away is white space. *)
Lemma trimEnd_split t : exists q, JS.blank q /\ t = JS.trimEnd t +:+ q.
Proof.
  induction t as [|c t IH].
  - exists "". split; [constructor | reflexivity].
  - cbn [JS.trimEnd]. destruct (JS.allWhiteSpace (String c t)) eqn:E.
    + exists (String c t). split; [apply allWhiteSpace_blank; exact E | reflexivity].
    + destruct IH as (q & Hq & Ht). exists q. split; [assumption|].
      rewrite append_cons. f_equal. exact Ht.
Qed.

(** What [trimEnd] leaves does not end with white space. *)
Lemma trimEnd_no_tail t : forall x y,
  JS.trimEnd t = x +:+ y -> y <> "" -> ~ JS.blank y.
Proof.
  induction t as [|c t IH]; intros x y H Hy Hb.
  - cbn [JS.trimEnd] in H. destruct x; [|discriminate].
    rewrite append_nil in H. congruence.
  - cbn [JS.trimEnd] in H. destruct (JS.allWhiteSpace (String c t)) eqn:E.
    + destruct x; [|discriminate]. rewrite append_nil in H. congruence.
    + destruct x as [|a x].
      * rewrite append_nil in H. subst y.
        destruct (trimEnd_split t) as (q & Hq & Ht).
        assert (Hall : JS.blank (String c t)).
        { rewrite Ht, <- append_cons. apply blank_app; assumption. }
        apply allWhiteSpace_blank in Hall. congruence.
      * rewrite append_cons in H. inversion H; subst. eapply IH; eauto.
Qed.

Lemma trimEnd_no_lead t :
  JS.stripAny JS.whiteSpaces t = None ->
  JS.stripAny JS.whiteSpaces (JS.trimEnd t) = None.
Proof.
  intros H. destruct (JS.stripAny JS.whiteSpaces (JS.trimEnd t)) as [rest|] eqn:E;
    [|reflexivity].
  apply stripAny_sound in E. destruct E as (w & Hw & Hr).
  destruct (trimEnd_split t) as (q & _ & Ht).
  rewrite Hr, append_assoc_s in Ht. rewrite Ht in H.
  rewrite stripAny_whiteSpace in H by assumption. discriminate.
Qed.

(** [trim] characterised: the string is white space, then [trim s], then
    white space, and [trim s] neither begins nor ends with white space. *)
Lemma trim_spec s :
  exists p q,
    JS.blank p /\ JS.blank q /\ s = p +:+ JS.trim s +:+ q
    /\ JS.stripAny JS.whiteSpaces (JS.trim s) = None
    /\ (forall x y, JS.trim s = x +:+ y -> y <> "" -> ~ JS.blank y).
Proof.
  destruct (trimStartFrom_split (String.length s) s) as (p & Hp & Hs).
  fold (JS.trimStart s) in Hs.
  destruct (trimEnd_split (JS.trimStart s)) as (q & Hq & Ht).
  fold (JS.trim s) in Ht.
  exists p, q. split; [assumption|]. split; [assumption|]. split.
  - rewrite <- Ht. exact Hs.
  - split.
    + apply trimEnd_no_lead. apply trimStartFrom_clean. lia.
    + apply trimEnd_no_tail.
Qed.

(** The guard of [sendMessage] sees an empty [trim] exactly on the blank
    inputs. *)
Lemma blank_iff_trim s : JS.blank s <-> JS.trim s = "".
Proof.
  unfold JS.trim. split.
  - intros H. rewrite trimStart_blank by assumption. reflexivity.
  - intros H.
    destruct (trimStartFrom_split (String.length s) s) as (p & Hp & Hs).
    fold (JS.trimStart s) in Hs.
    destruct (JS.trimStart s) as [|c t] eqn:E.
    + rewrite Hs, append_empty_r. exact Hp.
    + cbn [JS.trimEnd] in H.
      destruct (JS.allWhiteSpace (String c t)) eqn:Ea; [|discriminate].
      apply allWhiteSpace_blank in Ea. rewrite Hs. apply blank_app; assumption.
Qed.

(** ** UploadPDF: file selection *)

Import UploadPDF.

Lemma acceptable_tests f :
  acceptable f <-> isPDF f = true /\ tooLarge f = false.
Proof.
  unfold acceptable, isPDF, tooLarge, maxSize.
  rewrite negb_true_iff, andb_false_iff, !negb_false_iff, String.eqb_eq, Z.ltb_ge.
  change (10 * 1024 * 1024) with 10485760. tauto.
Qed.

Lemma acceptable_dec f : {acceptable f} + {~ acceptable f}.
Proof.
  destruct (isPDF f) eqn:E1; [destruct (tooLarge f) eqn:E2|].
  - right. intros H. apply acceptable_tests in H. destruct H. congruence.
  - left. apply acceptable_tests. split; assumption.
  - right. intros H. apply acceptable_tests in H. destruct H. congruence.
Qed.

Lemma some_collides a v :
  existsb (sameNameAndSize a) v = true <-> exists h, In h v /\ collide h a.
Proof.
  rewrite existsb_exists. unfold sameNameAndSize, collide.
  split; intros (h & Hin & H); exists h; split; auto.
  - apply andb_true_iff in H. destruct H as [H1 H2].
    apply String.eqb_eq in H1. apply Z.eqb_eq in H2. auto.
  - destruct H as [H1 H2]. apply andb_true_iff.
    split; [apply String.eqb_eq | apply Z.eqb_eq]; auto.
Qed.

Lemma collide_trans h a f : collide h a -> collide a f -> collide h f.
Proof. unfold collide. intros [? ?] [? ?]. split; congruence. Qed.

Lemma visit_cases v e a : Visited v e a (visit (v, e) a).
Proof.
  unfold visit.
  destruct (isPDF a) eqn:E1; simpl.
  - destruct (tooLarge a) eqn:E2.
    + apply VisitedUnfit. intros H. apply acceptable_tests in H. destruct H. congruence.
    + assert (Ha : acceptable a) by (apply acceptable_tests; split; assumption).
      destruct (existsb (sameNameAndSize a) v) eqn:E3.
      * apply some_collides in E3. destruct E3 as (h & Hin & Hc).
        eapply VisitedAgain; eauto.
      * apply VisitedKept; auto.
        intros h Hin Hc.
        assert (existsb (sameNameAndSize a) v = true) by (apply some_collides; eauto).
        congruence.
  - apply VisitedUnfit. intros H. apply acceptable_tests in H. destruct H. congruence.
Qed.

(** Exhibits the position of a kept file; leaves the two conditions on
    the files before it. *)
Ltac kept_at pre post :=
  right; exists pre, post;
  split; [reflexivity | split; [assumption | split]].

(** Which files end up in the accumulator [validFiles]. *)
Lemma scan_kept files : forall v e f,
  In f (fst (fold_left visit files (v, e))) <->
  In f v \/
  exists pre post, files = pre ++ f :: post /\ acceptable f /\
    (forall h, In h v -> ~ collide h f) /\ firstOfItsKind pre f.
Proof.
  induction files as [|a rest IH]; intros v e f; cbn [fold_left].
  - simpl. split; [auto|]. intros [H|(pre & post & H & _)]; auto.
    destruct pre; discriminate.
  - generalize (visit_cases v e a). generalize (visit (v, e) a). intros r Hr.
    destruct Hr as [reason Hna | reason h Ha Hin Hc | Ha Hfresh];
      rewrite IH; clear IH.
    + split.
      * intros [H|(pre & post & -> & Hf & Hv & Hp)]; auto.
        kept_at (a :: pre) post; auto.
        intros g [<-|Hg] Hg'; [contradiction | apply Hp; auto].
      * intros [H|(pre & post & Heq & Hf & Hv & Hp)]; auto.
        destruct pre as [|b pre]; simpl in Heq; inversion Heq; subst.
        -- contradiction.
        -- kept_at pre post; auto.
           intros g Hg. apply Hp. right; auto.
    + split.
      * intros [H|(pre & post & -> & Hf & Hv & Hp)]; auto.
        kept_at (a :: pre) post; auto.
        intros g [<-|Hg] Hg'; [|apply Hp; auto].
        intros Hgf. apply (Hv h Hin). eapply collide_trans; eauto.
      * intros [H|(pre & post & Heq & Hf & Hv & Hp)]; auto.
        destruct pre as [|b pre]; simpl in Heq; inversion Heq; subst.
        -- exfalso. apply (Hv h Hin); auto.
        -- kept_at pre post; auto.
           intros g Hg. apply Hp. right; auto.
    + split.
      * intros [H|(pre & post & -> & Hf & Hv & Hp)].
        -- apply in_app_or in H. destruct H as [H|[<-|[]]]; auto.
           kept_at (@nil File) rest; auto.
           intros g [].
        -- kept_at (a :: pre) post.
           ++ intros g Hg. apply Hv. apply in_or_app; auto.
           ++ intros g [<-|Hg] Hg'; [|apply Hp; auto].
              apply Hv. apply in_or_app. right. left. reflexivity.
      * intros [H|(pre & post & Heq & Hf & Hv & Hp)].
        -- left. apply in_or_app; auto.
        -- destruct pre as [|b pre]; simpl in Heq; inversion Heq; subst.
           ++ left. apply in_or_app. right. left. reflexivity.
           ++ kept_at pre post.
              ** intros g Hg. apply in_app_or in Hg. destruct Hg as [Hg|[<-|[]]]; auto.
                 apply Hp; [left; reflexivity | auto].
              ** intros g Hg. apply Hp. right; auto.
Qed.

(** Every visited file is either kept or reported: the two accumulators
    grow by one entry per file, and errors are never withdrawn. *)
Lemma scan_count files : forall v e,
  (length (fst (fold_left visit files (v, e)))
   + length (snd (fold_left visit files (v, e))))%nat
  = (length v + length e + length files)%nat.
Proof.
  induction files as [|a rest IH]; intros v e; cbn [fold_left].
  - simpl. lia.
  - generalize (visit_cases v e a). generalize (visit (v, e) a). intros r Hr.
    destruct Hr; rewrite IH; rewrite ?length_app; simpl; lia.
Qed.

Lemma scan_errors_grow files : forall v e x,
  In x e -> In x (snd (fold_left visit files (v, e))).
Proof.
  induction files as [|a rest IH]; intros v e x Hx; cbn [fold_left]; auto.
  generalize (visit_cases v e a). generalize (visit (v, e) a). intros r Hr.
  destruct Hr; apply IH; auto; apply in_or_app; auto.
Qed.

(** A file that is not kept leaves an error that starts with its name. *)
Lemma scan_reported files : forall v e pre f post,
  files = pre ++ f :: post ->
  ~ (acceptable f /\ (forall h, In h v -> ~ collide h f) /\ firstOfItsKind pre f) ->
  exists reason, In (name f +:+ reason) (snd (fold_left visit files (v, e))).
Proof.
  induction files as [|a rest IH]; intros v e pre f post Heq Hnot.
  - destruct pre; discriminate.
  - cbn [fold_left].
    generalize (visit_cases v e a). generalize (visit (v, e) a). intros r Hr.
    destruct pre as [|b pre]; simpl in Heq; inversion Heq; subst; clear Heq.
    + destruct Hr as [reason Hna | reason h Ha Hin Hc | Ha Hfresh].
      * exists reason. apply scan_errors_grow. apply in_or_app. right. left. reflexivity.
      * exists reason. apply scan_errors_grow. apply in_or_app. right. left. reflexivity.
      * exfalso. apply Hnot. split; [assumption|]. split; [assumption|].
        intros g [].
    + destruct Hr as [reason Hna | reason h Ha Hin Hc | Ha Hfresh].
      * apply (IH _ _ pre f post eq_refl). intros (Hf & Hv & Hp). apply Hnot.
        split; [assumption|]. split; [assumption|].
        intros g [<-|Hg] Hg'; [contradiction | apply Hp; auto].
      * apply (IH _ _ pre f post eq_refl). intros (Hf & Hv & Hp). apply Hnot.
        split; [assumption|]. split; [assumption|].
        intros g [<-|Hg] Hg'; [|apply Hp; auto].
        intros Hgf. apply (Hv h Hin). eapply collide_trans; eauto.
      * apply (IH _ _ pre f post eq_refl). intros (Hf & Hv & Hp). apply Hnot.
        split; [assumption|]. split.
        -- intros g Hg. apply Hv. apply in_or_app; auto.
        -- intros g [<-|Hg] Hg'; [|apply Hp; auto].
           apply Hv. apply in_or_app. right. left. reflexivity.
Qed.

Lemma visit_kept_only acc acc' a :
  fst acc = fst acc' -> fst (visit acc a) = fst (visit acc' a).
Proof.
  destruct acc as [v e], acc' as [v' e']. simpl. intros ->. unfold visit.
  destruct (negb (isPDF a)); [reflexivity|].
  destruct (tooLarge a); [reflexivity|].
  destruct (existsb (sameNameAndSize a) v'); reflexivity.
Qed.

Lemma visit_unfit acc a :
  isPDF a && negb (tooLarge a) = false -> fst (visit acc a) = fst acc.
Proof.
  destruct acc as [v e]. unfold visit. intros H.
  destruct (isPDF a); simpl in *; [|reflexivity].
  destruct (tooLarge a); simpl in *; [reflexivity|discriminate].
Qed.

(** The errors gathered so far do not influence which files are kept. *)
Lemma scan_kept_only files : forall acc acc',
  fst acc = fst acc' ->
  fst (fold_left visit files acc) = fst (fold_left visit files acc').
Proof.
  induction files as [|a rest IH]; intros acc acc' H; cbn [fold_left]; auto.
  apply IH. apply visit_kept_only. assumption.
Qed.

(** Files that fail the type or size test do not influence which files are
    kept. *)
Lemma scan_frame files : forall acc acc',
  fst acc = fst acc' ->
  fst (fold_left visit files acc)
  = fst (fold_left visit (List.filter passesTests files) acc').
Proof.
  induction files as [|a rest IH]; intros acc acc' H; cbn [fold_left List.filter]; auto.
  destruct (passesTests a) eqn:E.
  - cbn [fold_left]. apply IH. apply visit_kept_only. assumption.
  - apply IH. rewrite visit_unfit; assumption.
Qed.

(** Every acceptable file that was visited has a kept file of its name and
    size. *)
Lemma scan_represented files : forall v e g,
  In g files -> acceptable g ->
  exists h, In h (fst (fold_left visit files (v, e))) /\ collide h g.
Proof.
  induction files as [|a rest IH]; intros v e g Hin Hg; [destruct Hin|].
  cbn [fold_left].
  generalize (visit_cases v e a). generalize (visit (v, e) a). intros r Hr.
  destruct Hin as [->|Hin].
  - destruct Hr as [reason Hna | reason h Ha Hh Hc | Ha Hfresh].
    + contradiction.
    + exists h. split; [|assumption]. apply scan_kept. left. assumption.
    + exists g. split; [|split; reflexivity].
      apply scan_kept. left. apply in_or_app. right. left. reflexivity.
  - destruct Hr; apply IH; assumption.
Qed.

(** Visiting a file that is not kept leaves [validFiles] as it is. *)
Lemma visit_rejected pre f e0 :
  ~ (acceptable f /\ firstOfItsKind pre f) ->
  fst (visit (fold_left visit pre ([], e0)) f) = fst (fold_left visit pre ([], e0)).
Proof.
  intros Hnot.
  destruct (fold_left visit pre ([], e0)) as [v1 e1] eqn:E.
  generalize (visit_cases v1 e1 f). generalize (visit (v1, e1) f). intros r Hr.
  destruct Hr as [reason Hna | reason h Ha Hh Hc | Ha Hfresh]; [reflexivity..|].
  exfalso. apply Hnot. split; [assumption|].
  intros g Hg Hacc Hc.
  destruct (scan_represented pre [] e0 g Hg Hacc) as (h & Hh & Hhg).
  rewrite E in Hh. apply (Hfresh h Hh). eapply collide_trans; eauto.
Qed.

(** Taking a file that is not kept out of the batch does not change which
    files are kept. *)
Lemma scan_without_rejected pre f post :
  ~ (acceptable f /\ firstOfItsKind pre f) ->
  fst (scan (pre ++ f :: post)) = fst (scan (pre ++ post)).
Proof.
  intros Hnot. unfold scan. rewrite !fold_left_app. cbn [fold_left].
  apply scan_kept_only. apply visit_rejected. assumption.
Qed.

(** The accumulator stays free of collisions. *)
Lemma scan_NoDup files : forall v e,
  NoDup (map fileKey v) ->
  NoDup (map fileKey (fst (fold_left visit files (v, e)))).
Proof.
  induction files as [|a rest IH]; intros v e Hv; cbn [fold_left]; auto.
  generalize (visit_cases v e a). generalize (visit (v, e) a). intros r Hr.
  destruct Hr as [reason Hna | reason h Ha Hin Hc | Ha Hfresh]; apply IH; auto.
  rewrite map_app. simpl.
  apply NoDup_app. split; [assumption|]. split.
  - intros x Hx Hx'. apply list_elem_of_In in Hx, Hx'.
    destruct Hx' as [<-|[]].
    apply in_map_iff in Hx. destruct Hx as (h & Hk & Hh).
    apply (Hfresh h Hh). unfold fileKey in Hk. inversion Hk. split; auto.
  - apply NoDup_singleton.
Qed.

Lemma selectedFiles_scan st files :
  selectedFiles (handleFileChange st files) = fst (scan files).
Proof. unfold handleFileChange. destruct (scan files). reflexivity. Qed.

Lemma error_scan st files :
  error (handleFileChange st files) = JS.join ", " (snd (scan files)).
Proof.
  unfold handleFileChange. destruct (scan files) as [v e]. simpl.
  destruct e; reflexivity.
Qed.

(** C2 (as amended).  After [handleFileChange] the selection holds exactly
    the files of the batch that are PDFs (by content type or by a name
    ending in [.pdf], whatever the case) of at most 10 * 1024 * 1024 bytes
    and that are not preceded in the batch by another such file of the same
    name and size.  Every file of the batch is either selected or reported
    by one error that starts with its name, the error state being the
    errors joined by a comma.  A file that is not selected has no influence
    on the selection: the batch without it, and the batch without any of
    the files failing the type or size test, give the same selection. *)
Theorem handleFileChange_selection (st : State) (files : list File) :
  let st' := handleFileChange st files in
  (forall f, In f (selectedFiles st') <->
     exists pre post, files = pre ++ f :: post /\ acceptable f /\ firstOfItsKind pre f)
  /\ (exists errors,
        error st' = JS.join ", " errors
        /\ (length (selectedFiles st') + length errors = length files)%nat
        /\ forall pre f post, files = pre ++ f :: post ->
             ~ (acceptable f /\ firstOfItsKind pre f) ->
             exists reason, In (name f +:+ reason) errors)
  /\ (forall pre f post, files = pre ++ f :: post ->
        ~ (acceptable f /\ firstOfItsKind pre f) ->
        selectedFiles st' = selectedFiles (handleFileChange st (pre ++ post)))
  /\ selectedFiles st'
     = selectedFiles (handleFileChange st (List.filter passesTests files)).
Proof.
  cbv zeta. rewrite !selectedFiles_scan, error_scan.
  split; [|split; [|split]]; unfold scan.
  - intros f. rewrite scan_kept. split.
    + intros [[]|(pre & post & H1 & H2 & _ & H3)]. eauto.
    + intros (pre & post & H1 & H2 & H3). right. exists pre, post.
      repeat (split; [assumption|]). split; [intros h []|assumption].
  - exists (snd (fold_left visit files ([], []))). split; [reflexivity|]. split.
    + rewrite scan_count. simpl. lia.
    + intros pre f post Heq Hnot. eapply scan_reported; eauto.
      intros (H1 & _ & H3). apply Hnot. split; assumption.
  - intros pre f post -> Hnot. rewrite selectedFiles_scan.
    apply scan_without_rejected. assumption.
  - apply scan_frame. reflexivity.
Qed.

(** The theorem at a batch of three files: a text file, a PDF and a second
    PDF that collides with the first. *)
Lemma handleFileChange_selection_witness :
  (In reportA (selectedFiles (handleFileChange initial [notes; reportA; reportB])))
  /\ selectedFiles (handleFileChange initial [notes; reportA; reportB])
     = selectedFiles (handleFileChange initial [reportA; reportB]).
Proof.
  destruct (handleFileChange_selection initial [notes; reportA; reportB])
    as (Hsel & _ & Hdrop & _).
  split.
  - apply Hsel. exists [notes], [reportB]. split; [reflexivity|]. split.
    + split; [left; reflexivity | vm_compute; discriminate].
    + intros g [<-|[]] [[H|H] _]; vm_compute in H; discriminate.
  - apply (Hdrop [] notes [reportA; reportB] eq_refl).
    intros [[[H|H] _] _]; vm_compute in H; discriminate.
Defined.

(** Counterexample to C2 as stated: [reportB] is a PDF of 2048 bytes in the batch,
    yet it is not selected, because [reportA] has its name and size. *)
Lemma handleFileChange_drops_twin :
  In reportB [reportA; reportB]
  /\ acceptable reportB
  /\ ~ In reportB (selectedFiles (handleFileChange initial [reportA; reportB])).
Proof.
  split; [right; left; reflexivity|]. split.
  - split; [left; reflexivity | vm_compute; discriminate].
  - vm_compute. intros [H|[]]. discriminate.
Qed.

(** C9.  After [handleFileChange], no two positions of the selection hold
    files with the same name and the same size. *)
Theorem handleFileChange_no_collision (st : State) (files : list File) :
  forall i j f g,
    i <> j ->
    nth_error (selectedFiles (handleFileChange st files)) i = Some f ->
    nth_error (selectedFiles (handleFileChange st files)) j = Some g ->
    ~ (name f = name g /\ size f = size g).
Proof.
  intros i j f g Hij Hi Hj [Hn Hs].
  rewrite selectedFiles_scan in Hi, Hj.
  assert (Hnd : NoDup (map fileKey (fst (scan files))))
    by (apply scan_NoDup; constructor).
  apply NoDup_ListNoDup in Hnd.
  apply Hij.
  apply (proj1 (List.NoDup_nth_error _) Hnd).
  - rewrite length_map. apply nth_error_Some. congruence.
  - rewrite !nth_error_map, Hi, Hj. simpl. unfold fileKey. congruence.
Qed.

Lemma handleFileChange_no_collision_witness :
  ~ (name reportA = name labResults /\ size reportA = size labResults).
Proof.
  apply (handleFileChange_no_collision initial [reportA; notes; labResults; reportB]
           0%nat 1%nat reportA labResults).
  - discriminate.
  - vm_compute. reflexivity.
  - vm_compute. reflexivity.
Defined.

(** ** Chatbot *)

Import Chatbot.

Lemma truthy_false s : JS.truthy s = false <-> s = "".
Proof. unfold JS.truthy. rewrite negb_false_iff. apply String.eqb_eq. Qed.

Lemma orElse_truthy a b : b <> "" -> JS.orElse a b <> "".
Proof.
  intros Hb. unfold JS.orElse. destruct a as [x|]; [|assumption].
  destruct (JS.truthy x) eqn:E; [|assumption].
  intros ->. discriminate.
Qed.


(** *** History *)

Lemma historyMessages_length pairs :
  length (historyMessages pairs) = (2 * length pairs)%nat.
Proof. induction pairs as [|p ps IH]; simpl in *; [reflexivity | rewrite IH; lia]. Qed.

Lemma historyMessages_nth pairs : forall i p,
  nth_error pairs i = Some p ->
  nth_error (historyMessages pairs) (2 * i) = Some (userEntry p)
  /\ nth_error (historyMessages pairs) (2 * i + 1) = Some (botEntry p).
Proof.
  induction pairs as [|q ps IH]; intros i p H.
  - destruct i; discriminate.
  - destruct i as [|i].
    + inversion H; subst. split; reflexivity.
    + simpl in H. apply IH in H. destruct H as [H1 H2].
      replace (2 * S i)%nat with (S (S (2 * i))) by lia.
      replace (S (S (2 * i)) + 1)%nat with (S (S (2 * i + 1))) by lia.
      split; assumption.
Qed.

(** C4.  When the history endpoint answers with [n] pairs, the message
    list set by [loadChatHistory] has length [2n]; entry [2i] is the user
    message of pair [i] and entry [2i+1] its bot response, both with the
    timestamp of pair [i]. *)
Theorem loadChatHistory_interleaves (st : State) (pairs : list HistoryPair) :
  let st' := loadChatHistory st
               (Resolved {| history_success := true; history_messages := pairs |}) in
  length (messages st') = (2 * length pairs)%nat
  /\ forall i p, nth_error pairs i = Some p ->
       exists u b,
         nth_error (messages st') (2 * i) = Some u
         /\ nth_error (messages st') (2 * i + 1) = Some b
         /\ sender u = user /\ text u = user_message p
         /\ timestamp u = pair_timestamp p
         /\ sender b = bot /\ text b = bot_response p
         /\ timestamp b = pair_timestamp p.
Proof.
  cbv zeta. simpl. split.
  - apply historyMessages_length.
  - intros i p H. destruct (historyMessages_nth pairs i p H) as [Hu Hb].
    exists (userEntry p), (botEntry p). repeat split; assumption.
Qed.

(** *** The loading placeholder *)

Lemma withoutLoading_settled ms : Forall settled (withoutLoading ms).
Proof.
  unfold withoutLoading. apply List.Forall_forall. intros m Hm.
  apply List.filter_In in Hm. destruct Hm as [_ Hm].
  apply negb_true_iff in Hm. exact Hm.
Qed.

Lemma withoutLoading_id ms : Forall settled ms -> withoutLoading ms = ms.
Proof.
  unfold withoutLoading.
  induction 1 as [|m ms Hm _ IH]; cbn [List.filter]; [reflexivity|].
  unfold settled in Hm. rewrite Hm. cbn [negb]. rewrite IH. reflexivity.
Qed.

Lemma withoutLoading_app xs ys :
  withoutLoading (xs ++ ys) = withoutLoading xs ++ withoutLoading ys.
Proof. apply List.filter_app. Qed.

Lemma historyMessages_settled pairs : Forall settled (historyMessages pairs).
Proof.
  induction pairs as [|p ps IH]; simpl; [constructor|].
  constructor; [reflexivity|]. constructor; [reflexivity|]. exact IH.
Qed.

Lemma step_quiet sessionId st ev : quiet st -> quiet (step sessionId st ev).
Proof.
  unfold quiet. intros Hq.
  destruct ev as [s|n1 n2|r now| |r|confirmed r|]; simpl.
  - exact Hq.
  - unfold sendMessage_begin.
    destruct (negb (JS.truthy (JS.trim (input st))) || loading st); simpl;
      [exact Hq | discriminate].
  - intros _. unfold sendMessage_end.
    destruct (chatTry r) as [data|e]; simpl;
      (apply Forall_app; split; [apply withoutLoading_settled|]);
      constructor; try reflexivity; constructor.
  - exact Hq.
  - unfold loadChatHistory.
    destruct r as [data|e]; simpl; [|exact Hq].
    destruct (history_success data); simpl; [|exact Hq].
    intros _. apply historyMessages_settled.
  - unfold clearChat. destruct confirmed; [|exact Hq].
    destruct r; simpl; [intros _; constructor | exact Hq].
  - exact Hq.
Qed.

Lemma reachable_quiet sessionId st : reachable sessionId st -> quiet st.
Proof.
  intros [evs <-]. unfold run.
  assert (H : quiet initial) by (intros _; constructor).
  revert H. generalize initial.
  induction evs as [|ev evs IH]; intros s0 H; simpl; [exact H|].
  apply IH. apply step_quiet. exact H.
Qed.

(** A history of two pairs: the bot response of the second pair is
    entry 3. *)
Lemma loadChatHistory_interleaves_witness :
  exists u b,
    nth_error (messages (loadChatHistory initial
       (Resolved {| history_success := true;
                    history_messages := [mkPair "q0" "a0" "t0" 12; mkPair "q1" "a1" "t1" 34] |})))
      (2 * 1) = Some u
    /\ nth_error (messages (loadChatHistory initial
       (Resolved {| history_success := true;
                    history_messages := [mkPair "q0" "a0" "t0" 12; mkPair "q1" "a1" "t1" 34] |})))
      (2 * 1 + 1) = Some b
    /\ sender u = user /\ text u = "q1" /\ timestamp u = "t1"
    /\ sender b = bot /\ text b = "a1" /\ timestamp b = "t1".
Proof.
  exact (proj2 (loadChatHistory_interleaves initial
                  [mkPair "q0" "a0" "t0" 12; mkPair "q1" "a1" "t1" 34])
               1%nat (mkPair "q1" "a1" "t1" 34) eq_refl).
Defined.

(** *** Turns *)

Lemma step_tidy sessionId st ev : tidy st -> tidy (Chatbot.step sessionId st ev).
Proof.
  intros (ms & Hms & Hcase).
  destruct ev as [s|n1 n2|r now| |r|confirmed r|]; cbn [Chatbot.step].
  - exists ms. split; [assumption|]. exact Hcase.
  - unfold sendMessage_begin.
    destruct (negb (JS.truthy (JS.trim (input st))) || loading st) eqn:G; cbn [fst].
    + exists ms. split; [assumption|]. exact Hcase.
    + apply orb_false_iff in G. destruct G as [_ Hl].
      destruct Hcase as [E|[Hl' _]]; [|congruence].
      exists (ms ++ [userMsgObj (JS.trim (input st)) n1]). split.
      * apply Forall_app. split; [assumption|].
        constructor; [reflexivity|constructor].
      * right. cbn. split; [reflexivity|]. exists n2. rewrite E. reflexivity.
  - unfold sendMessage_end.
    destruct (chatTry r) as [data|e].
    + exists (withoutLoading (Chatbot.messages st) ++ [replyMsgObj data now]). split.
      * apply Forall_app. split; [apply withoutLoading_settled|].
        constructor; [reflexivity|constructor].
      * left. reflexivity.
    + exists (withoutLoading (Chatbot.messages st) ++ [errorMsgObj (errorMessageOf e) now]).
      split.
      * apply Forall_app. split; [apply withoutLoading_settled|].
        constructor; [reflexivity|constructor].
      * left. reflexivity.
  - exists ms. split; [assumption|]. exact Hcase.
  - unfold loadChatHistory. destruct r as [data|e].
    + destruct (history_success data).
      * exists (historyMessages (history_messages data)).
        split; [apply historyMessages_settled|]. left. reflexivity.
      * exists ms. split; [assumption|]. exact Hcase.
    + exists ms. split; [assumption|]. exact Hcase.
  - unfold clearChat. destruct confirmed; [|exists ms; split; assumption].
    destruct r.
    + exists []. split; [constructor|]. left. reflexivity.
    + exists ms. split; [assumption|]. exact Hcase.
  - exists ms. split; [assumption|]. exact Hcase.
Qed.


Lemma nonblank_truthy s : ~ JS.blank s -> JS.truthy (JS.trim s) = true.
Proof.
  intros H. destruct (JS.truthy (JS.trim s)) eqn:E; [reflexivity|].
  apply truthy_false in E. apply blank_iff_trim in E. contradiction.
Qed.

(** A bystander leaves the message list and the loading flag alone. *)
Lemma bystander_step sessionId st ev :
  bystander ev -> loading st = true ->
  messages (step sessionId st ev) = messages st
  /\ loading (step sessionId st ev) = true.
Proof.
  intros Hev Hl.
  destruct ev as [s|n1 n2|r now| |r|confirmed r|]; cbn [step bystander] in *.
  - split; [reflexivity | exact Hl].
  - unfold sendMessage_begin. rewrite Hl, orb_true_r. split; [reflexivity | exact Hl].
  - destruct Hev.
  - split; [reflexivity | exact Hl].
  - unfold loadChatHistory.
    destruct r as [data|e]; [rewrite Hev|]; split; (reflexivity || exact Hl).
  - unfold clearChat. destruct Hev as [->|[e ->]]; [split; [reflexivity | exact Hl]|].
    destruct confirmed; split; (reflexivity || exact Hl).
  - split; [reflexivity | exact Hl].
Qed.

Lemma bystanders_run sessionId evs : forall st,
  Forall bystander evs -> loading st = true ->
  messages (fold_left (step sessionId) evs st) = messages st
  /\ loading (fold_left (step sessionId) evs st) = true.
Proof.
  induction evs as [|ev evs IH]; intros st H Hl; cbn [fold_left];
    [split; [reflexivity | exact Hl]|].
  inversion H as [|? ? Hev Hevs]; subst.
  destruct (bystander_step sessionId st ev Hev Hl) as [Hm Hl'].
  destruct (IH _ Hevs Hl') as [Hm' Hl'']. split; [congruence | exact Hl''].
Qed.

(** The state in which the request is sent. *)
Lemma sendMessage_begin_sends sessionId st now1 now2 :
  ~ JS.blank (input st) -> loading st = false ->
  sendMessage_begin sessionId st now1 now2
  = ({| input := "";
        messages := (messages st ++ [userMsgObj (JS.trim (input st)) now1])
                      ++ [loadingMsgObj now2];
        loading := true;
        isLoadingHistory := isLoadingHistory st;
        error := "" |},
     Some {| req_message := JS.trim (input st); req_session_id := sessionId |}).
Proof.
  intros Hb Hl. unfold sendMessage_begin.
  rewrite (nonblank_truthy _ Hb), Hl. reflexivity.
Qed.


(** The list in which a turn completes after bystanders only: what was
    displayed, the user's message, nothing else. *)
Lemma withoutLoading_turn ms u now :
  Forall settled ms -> settled u ->
  withoutLoading ((ms ++ [u]) ++ [loadingMsgObj now]) = ms ++ [u].
Proof.
  intros Hms Hu. rewrite !withoutLoading_app, (withoutLoading_id _ Hms).
  rewrite (withoutLoading_id [u]) by (constructor; [exact Hu | constructor]).
  cbn [withoutLoading List.filter isLoading loadingMsgObj negb].
  apply List.app_nil_r.
Qed.



(** C10.  With an input that is empty or made of white space only
    (whichever white space [trim] knows, U+00A0 and U+3000 included), or
    with a request in flight, [sendMessage] returns at its guard: the state
    (message list, input, error) is the one it was called in and no request
    is issued.  In every other case it does issue a request, with the
    trimmed input. *)
Theorem sendMessage_guard (sessionId : string) (st : State) (now1 now2 : string) :
  (JS.blank (input st) \/ loading st = true ->
   sendMessage_begin sessionId st now1 now2 = (st, None))
  /\ (~ JS.blank (input st) -> loading st = false ->
      snd (sendMessage_begin sessionId st now1 now2)
      = Some {| req_message := JS.trim (input st); req_session_id := sessionId |}).
Proof.
  split.
  - intros H. unfold sendMessage_begin. destruct H as [H|H].
    + rewrite (proj1 (blank_iff_trim _) H). reflexivity.
    + rewrite H, orb_true_r. reflexivity.
  - intros Hb Hl. rewrite (sendMessage_begin_sends _ _ _ _ Hb Hl). reflexivity.
Qed.

Lemma sendMessage_guard_witness :
  sendMessage_begin "s1" (setInput initial blankInput) "t1" "t2"
  = (setInput initial blankInput, None).
Proof.
  apply (proj1 (sendMessage_guard "s1" (setInput initial blankInput) "t1" "t2")).
  left. apply blank_iff_trim. vm_compute. reflexivity.
Defined.

(** C5.  Once the user has confirmed, a DELETE request that succeeds leaves
    the message list empty and the error state cleared; one that fails
    leaves the message list as it was.  Declining the confirmation changes
    nothing. *)
Theorem clearChat_atomic (st : State) :
  (forall data, messages (clearChat st true (Resolved data)) = []
                /\ error (clearChat st true (Resolved data)) = "")
  /\ (forall e, messages (clearChat st true (Rejected e)) = messages st)
  /\ (forall r, clearChat st false r = st).
Proof. repeat split. Qed.

(** ** PDFManager and App *)

Import PDFManager.

(** C6.  A confirmed removal of document [X] that the server reports as
    successful leaves in the list exactly the entries whose id differs from
    [X], in their order; a failed removal, or a declined one, leaves the
    list as it was. *)
Theorem removePDF_frame (app : AppState) (st : PDFManager.State) (X : Z)
    (filename : string) :
  (forall data, remove_success data = true ->
     let app' := fst (removePDF app st X filename true (Resolved data)) in
     uploadedPDFs app' = List.filter (fun d => negb (id d =? X)) (uploadedPDFs app)
     /\ forall d, In d (uploadedPDFs app') <-> In d (uploadedPDFs app) /\ id d <> X)
  /\ (forall r, failedRemoval r ->
        fst (removePDF app st X filename true r) = app)
  /\ (forall r, fst (removePDF app st X filename false r) = app).
Proof.
  split; [|split].
  - intros data Hs. cbv zeta. unfold removePDF. simpl. rewrite Hs. simpl.
    split; [reflexivity|].
    intros d. rewrite List.filter_In, negb_true_iff, Z.eqb_neq. reflexivity.
  - intros r Hr. unfold removePDF. simpl.
    destruct r as [data|e]; simpl in *; [rewrite Hr|]; reflexivity.
  - intros r. reflexivity.
Qed.

Lemma removePDF_frame_witness :
  uploadedPDFs (fst (removePDF
      {| sessionId := "s1";
         uploadedPDFs := [mkPDF 1 "a.pdf" 100 "t" 3; mkPDF 2 "b.pdf" 200 "t" 5] |}
      {| isRemoving := ∅; PDFManager.error := "" |} 1 "a.pdf" true
      (Resolved {| remove_success := true; remove_error := None |})))
  = [mkPDF 2 "b.pdf" 200 "t" 5].
Proof.
  exact (proj1 (proj1 (removePDF_frame
      {| sessionId := "s1";
         uploadedPDFs := [mkPDF 1 "a.pdf" 100 "t" 3; mkPDF 2 "b.pdf" 200 "t" 5] |}
      {| isRemoving := ∅; PDFManager.error := "" |} 1 "a.pdf")
      {| remove_success := true; remove_error := None |} eq_refl)).
Defined.

(** ** formatFileSize *)

Import FileSize.

Lemma sizeIndex_range bytes i :
  0 < bytes -> 0 <= i -> (sizeIndex bytes = i <-> k ^ i <= bytes < k ^ (i + 1)).
Proof.
  intros Hb Hi. unfold sizeIndex, k.
  change 1024 with (2 ^ 10). rewrite <- !Z.pow_mul_r by lia.
  pose proof (Z.log2_spec bytes Hb) as [Hlo Hhi].
  pose proof (Z.log2_nonneg bytes) as Hnn.
  split.
  - intros <-.
    pose proof (Z.mul_div_le (Z.log2 bytes) 10 ltac:(lia)).
    pose proof (Z.mul_succ_div_gt (Z.log2 bytes) 10 ltac:(lia)).
    split.
    + eapply Z.le_trans; [|exact Hlo]. apply Z.pow_le_mono_r; lia.
    + eapply Z.lt_le_trans; [exact Hhi|]. apply Z.pow_le_mono_r; lia.
  - intros [H1 H2].
    apply Z.log2_le_pow2 in H1; [|lia].
    apply Z.log2_lt_pow2 in H2; [|lia].
    symmetry. apply (Z.div_unique_pos _ 10 i (Z.log2 bytes - 10 * i)); lia.
Qed.

(** Below one tebibyte the unit is one of the four. *)
Lemma formatFileSize_unit_known bytes :
  0 < bytes < k ^ 4 -> In (unitAt (sizeIndex bytes)) sizes.
Proof.
  intros [Hb Hlt]. unfold sizeIndex.
  assert (H : 0 <= Z.log2 bytes / 10 < 4).
  { split; [apply Z.div_pos; [apply Z.log2_nonneg|lia]|].
    apply Z.div_lt_upper_bound; [lia|].
    apply Z.log2_lt_pow2; [lia|]. exact Hlt. }
  assert (Hc : Z.log2 bytes / 10 = 0 \/ Z.log2 bytes / 10 = 1
               \/ Z.log2 bytes / 10 = 2 \/ Z.log2 bytes / 10 = 3) by lia.
  destruct Hc as [-> | [-> | [-> | ->]]]; vm_compute; tauto.
Qed.

(** From one tebibyte on, [sizes[i]] is [undefined]. *)
Lemma formatFileSize_unit_missing bytes :
  k ^ 4 <= bytes -> unitAt (sizeIndex bytes) = "undefined".
Proof.
  intros Hb. unfold unitAt, sizeIndex.
  assert (H : 4 <= Z.log2 bytes / 10).
  { apply Z.div_le_lower_bound; [lia|].
    apply Z.log2_le_pow2; [unfold k in Hb; lia|]. exact Hb. }
  destruct (nth_error sizes (Z.to_nat (Z.log2 bytes / 10))) eqn:E; [|reflexivity].
  assert (Hl : (Z.to_nat (Z.log2 bytes / 10) < length sizes)%nat)
    by (apply nth_error_Some; congruence).
  simpl in Hl. lia.
Qed.

(** C8 at two tebibytes: the index is 4, past the end of [sizes], and the
    unit printed is [undefined]. *)
Theorem formatFileSize_two_tebibytes :
  sizeIndex 2199023255552 = 4
  /\ nth_error sizes (Z.to_nat (sizeIndex 2199023255552)) = None
  /\ formatFileSize 2199023255552 = "2 undefined"
  /\ ~ In (unitAt (sizeIndex 2199023255552)) sizes.
Proof.
  split; [reflexivity|]. split; [reflexivity|]. split; [vm_compute; reflexivity|].
  vm_compute. intros [H|[H|[H|[H|[]]]]]; discriminate.
Qed.

(** ** Chunker *)

Import Chunker.

Lemma chunker_accepts cfg text :
  (overlap cfg < chunk_size cfg)%nat -> exists chunks, chunker cfg text = inr chunks.
Proof.
  intros H. unfold chunker.
  destruct (chunk_size cfg <=? overlap cfg)%nat eqn:E; [|eauto].
  apply Nat.leb_le in E. lia.
Qed.

Lemma chunker_empty cfg :
  (overlap cfg < chunk_size cfg)%nat -> chunker cfg "" = inr [].
Proof.
  intros H. unfold chunker.
  destruct (chunk_size cfg <=? overlap cfg)%nat eqn:E.
  - apply Nat.leb_le in E. lia.
  - simpl. replace (chunk_size cfg - overlap cfg - 1)%nat
      with (0 * (chunk_size cfg - overlap cfg) + (chunk_size cfg - overlap cfg - 1))%nat by lia.
    rewrite Nat.div_add_l by lia. rewrite Nat.div_small by lia. reflexivity.
Qed.

(** The scenario of the specification: 2400 characters, windows of 1000
    overlapping by 200, give three chunks, the last one shorter. *)
Lemma chunker_scenario :
  match chunker {| chunk_size := 1000; overlap := 200 |} (filler 2400) with
  | inr chunks => map String.length chunks = [1000; 1000; 800]%nat
  | inl _ => False
  end.
Proof. vm_compute. reflexivity. Qed.

(** C7.  With [chunk_size > 0] and [overlap >= chunk_size] the Chunker
    fails with [InvalidChunkConfig], whatever the text; it produces no
    chunk sequence. *)
Theorem chunker_rejects_overlap (cfg : Config) (text : string) :
  (0 < chunk_size cfg)%nat ->
  (chunk_size cfg <= overlap cfg)%nat ->
  chunker cfg text = inl InvalidChunkConfig
  /\ forall chunks, chunker cfg text <> inr chunks.
Proof.
  intros _ H. unfold chunker.
  apply Nat.leb_le in H. rewrite H. split; [reflexivity | discriminate].
Qed.

Lemma chunker_rejects_overlap_witness :
  chunker {| chunk_size := 1000; overlap := 1000 |} "some extracted text"
    = inl InvalidChunkConfig
  /\ forall chunks,
       chunker {| chunk_size := 1000; overlap := 1000 |} "some extracted text" <> inr chunks.
Proof.
  apply (chunker_rejects_overlap {| chunk_size := 1000; overlap := 1000 |}
           "some extracted text"); simpl; lia.
Defined.

(** ** Chunk store and retriever *)

Import Retrieval.

Section Tenancy.

Variable Vector : Type.
Variable embed : string -> Vector.
Variable similarity : Vector -> Vector -> Z.

Implicit Types (st : Store Vector) (r : ChunkRow Vector).

Lemma ownsDocument_spec st s d : ownsDocument st s d = true <-> ownsDoc st s d.
Proof.
  unfold ownsDocument, ownsDoc. split.
  - destruct (documents st !! d) as [doc|]; [|discriminate].
    intros H. apply String.eqb_eq in H. eauto.
  - intros (doc & -> & H). apply String.eqb_eq. exact H.
Qed.

Lemma ownsDoc_unique st s1 s2 d : ownsDoc st s1 d -> ownsDoc st s2 d -> s1 = s2.
Proof. intros (d1 & H1 & <-) (d2 & H2 & <-). congruence. Qed.

Lemma empty_consistent : consistent (@empty Vector).
Proof.
  constructor; simpl.
  - intros r [].
  - intros d doc H. rewrite lookup_empty in H. discriminate.
  - intros m [].
Qed.

Lemma createSession_consistent st s : consistent st -> consistent (createSession st s).
Proof.
  intros [H1 H2 H3]. constructor; simpl.
  - exact H1.
  - intros d doc H. destruct (H2 d doc H). split; [assumption|].
    apply elem_of_union. right. assumption.
  - intros m H. apply elem_of_union. right. apply H3. assumption.
Qed.

Lemma addDocument_consistent st s f b t st' d :
  consistent st -> addDocument st s f b t = inr (st', d) -> consistent st'.
Proof.
  intros [H1 H2 H3]. unfold addDocument.
  destruct (decide (s ∈ sessions st)) as [Hs|]; [|discriminate].
  intros H. inversion H; subst; clear H. constructor; simpl.
  - intros r Hr. destruct (H1 r Hr) as (doc & Hd & Ho).
    exists doc. split; [|assumption].
    simpl. rewrite lookup_insert_ne; [assumption|].
    destruct (H2 _ _ Hd). lia.
  - intros d doc. rewrite lookup_insert. case_decide as E.
    + intros H. inversion H; subst. simpl. split; [lia|assumption].
    + intros H. destruct (H2 _ _ H). split; [lia|assumption].
  - exact H3.
Qed.

Lemma put_consistent st s d i t v st' :
  consistent st -> put st s d i t v = inr st' -> consistent st'.
Proof.
  intros [H1 H2 H3]. unfold put.
  destruct (ownsDocument st s d) eqn:E; [|discriminate].
  apply ownsDocument_spec in E.
  intros H. inversion H; subst; clear H. constructor; simpl.
  - intros r Hr. apply in_app_or in Hr. destruct Hr as [Hr|[<-|[]]].
    + exact (H1 r Hr).
    + exact E.
  - exact H2.
  - exact H3.
Qed.

Lemma deleteDocument_consistent st s d st' :
  consistent st -> deleteDocument st s d = inr st' -> consistent st'.
Proof.
  intros [H1 H2 H3]. unfold deleteDocument.
  destruct (ownsDocument st s d); [|discriminate].
  intros H. inversion H; subst; clear H. constructor; simpl.
  - intros r Hr. apply List.filter_In in Hr. destruct Hr as [Hr Hne].
    apply negb_true_iff, Nat.eqb_neq in Hne.
    destruct (H1 r Hr) as (doc & Hd & Ho).
    exists doc. split; [|assumption].
    simpl. rewrite lookup_delete_ne; [assumption|congruence].
  - intros d' doc H. apply lookup_delete_Some in H. destruct H as [_ H].
    exact (H2 _ _ H).
  - exact H3.
Qed.

Lemma append_consistent st m st' :
  consistent st -> append st m = inr st' -> consistent st'.
Proof.
  intros [H1 H2 H3]. unfold append.
  destruct (decide (msg_session m ∈ sessions st)) as [Hs|]; [|discriminate].
  intros H. inversion H; subst; clear H. constructor; simpl.
  - exact H1.
  - exact H2.
  - intros m' Hm. apply in_app_or in Hm. destruct Hm as [Hm|[<-|[]]]; auto.
Qed.

Lemma clear_consistent st s : consistent st -> consistent (clear st s).
Proof.
  intros [H1 H2 H3]. constructor; simpl.
  - exact H1.
  - exact H2.
  - intros m Hm. apply List.filter_In in Hm. destruct Hm as [Hm _]. auto.
Qed.

Lemma apply_consistent st op : consistent st -> consistent (apply st op).
Proof.
  intros H. destruct op as [s|s f b t|s d i t v|s d|m|s]; simpl.
  - apply createSession_consistent; assumption.
  - destruct (addDocument st s f b t) as [|[st' d]] eqn:E; [assumption|].
    eapply addDocument_consistent; eauto.
  - destruct (put st s d i t v) as [|st'] eqn:E; [assumption|].
    eapply put_consistent; eauto.
  - destruct (deleteDocument st s d) as [|st'] eqn:E; [assumption|].
    eapply deleteDocument_consistent; eauto.
  - destruct (append st m) as [|st'] eqn:E; [assumption|].
    eapply append_consistent; eauto.
  - apply clear_consistent; assumption.
Qed.

Lemma build_consistent (ops : list (Op Vector)) : consistent (build ops).
Proof.
  unfold build. generalize empty_consistent. generalize (@empty Vector).
  induction ops as [|op ops IH]; intros st H; simpl; [assumption|].
  apply IH. apply apply_consistent. assumption.
Qed.

Lemma insertRanked_In q r x rs :
  In x (insertRanked similarity q r rs) -> x = r \/ In x rs.
Proof.
  induction rs as [|y rs IH]; simpl.
  - intros [<-|[]]. left. reflexivity.
  - destruct (ranksBefore similarity q r y); simpl.
    + intros [<-|H]; auto.
    + intros [<-|H]; auto. destruct (IH H); auto.
Qed.

Lemma rank_In q x rs : In x (rank similarity q rs) -> In x rs.
Proof.
  induction rs as [|r rs IH]; simpl; [auto|].
  intros H. apply insertRanked_In in H. destruct H as [->|H]; auto.
Qed.

Lemma firstn_subset {A} (k : nat) (l : list A) x : In x (firstn k l) -> In x l.
Proof.
  revert l. induction k as [|k IH]; intros [|y l]; simpl; try tauto.
  intros [H|H]; auto.
Qed.

Lemma query_scoped st s q k r :
  In r (query similarity st s q k) -> In r (chunks st) /\ row_session r = s.
Proof.
  unfold query. intros H.
  apply firstn_subset, rank_In, List.filter_In in H.
  destruct H as [H1 H2]. apply String.eqb_eq in H2. auto.
Qed.

Lemma query_bounded st s q k : (length (query similarity st s q k) <= k)%nat.
Proof. unfold query. apply List.firstn_le_length. Qed.

(** C1.  In every store built by the operations of the persistence
    layer, each result of a retrieval for session [A] names a document
    owned by [A] and by no other session [B]; a document has at most one
    owning session, every chunk row has exactly one (the owner of its
    document), and every document and message belongs to a known
    session. *)
Theorem retrieve_session_isolation (ops : list (Op Vector)) (A B : SessionId)
    (queryText : string) (k : nat) :
  A <> B ->
  let st := build ops in
  (forall text d score,
      In (text, d, score) (retrieve embed similarity st A queryText k) ->
      ownsDoc st A d /\ ~ ownsDoc st B d)
  /\ (forall d s1 s2, ownsDoc st s1 d -> ownsDoc st s2 d -> s1 = s2)
  /\ (forall r, In r (chunks st) ->
        exists s, ownsDoc st s (row_document r)
                  /\ forall s', ownsDoc st s' (row_document r) -> s' = s)
  /\ (forall d doc, documents st !! d = Some doc -> doc_session doc ∈ sessions st)
  /\ (forall m, In m (messages st) -> msg_session m ∈ sessions st).
Proof.
  intros HAB st.
  pose proof (build_consistent ops) as [H1 H2 H3]. fold st in H1, H2, H3.
  split; [|split; [|split; [|split]]].
  - intros text d score H. unfold retrieve in H.
    apply in_map_iff in H. destruct H as (r & Hr & Hq).
    inversion Hr; subst; clear Hr.
    apply query_scoped in Hq. destruct Hq as [Hin Hs].
    pose proof (H1 r Hin) as Ho. rewrite Hs in Ho.
    split; [assumption|].
    intros Hb. apply HAB. eapply ownsDoc_unique; eauto.
  - intros d s1 s2. apply ownsDoc_unique.
  - intros r Hr. exists (row_session r). split; [auto|].
    intros s' Hs'. eapply ownsDoc_unique; eauto.
  - intros d doc H. apply (H2 d doc H).
  - exact H3.
Qed.

End Tenancy.

(** The store of two sessions: session [A] asks for its two best
    chunks; the first one is of document 0, which [A] owns and [B] does
    not. *)
Lemma retrieve_session_isolation_witness :
  ownsDoc (build twoSessions) "A" 0%nat /\ ~ ownsDoc (build twoSessions) "B" 0%nat.
Proof.
  refine (proj1 (retrieve_session_isolation Z toyEmbed toySimilarity
                   twoSessions "A" "B" "cough" 2%nat _) "fever" 0%nat 0 _).
  - discriminate.
  - vm_compute. left. reflexivity.
Defined.

(** * Further properties of the components *)

(** ** UploadPDF: the selection and its writers *)

Lemma removeFile_from (l : list File) : forall a i,
  map snd (List.filter (fun p => negb (fst p =? i)%nat) (combine (seq a (length l)) l))
  = if (i <? a)%nat then l else firstn (i - a) l ++ skipn (S (i - a)) l.
Proof.
  induction l as [|x l IH]; intros a i; simpl.
  - destruct (i <? a)%nat; [reflexivity|]. destruct (i - a)%nat; reflexivity.
  - destruct (Nat.eqb_spec a i) as [Heq|Hne]; simpl; rewrite (IH (S a) i).
    + subst a. rewrite Nat.ltb_irrefl, Nat.sub_diag.
      assert (H : (i <? S i)%nat = true) by (apply Nat.ltb_lt; lia).
      rewrite H. reflexivity.
    + destruct (Nat.ltb_spec i a) as [Hlt|Hge].
      * assert (H : (i <? S a)%nat = true) by (apply Nat.ltb_lt; lia).
        rewrite H. reflexivity.
      * assert (H : (i <? S a)%nat = false) by (apply Nat.ltb_ge; lia).
        rewrite H.
        replace (i - a)%nat with (S (i - S a)) by lia. reflexivity.
Qed.

Lemma removeFile_selection (st : UploadPDF.State) (index : nat) :
  selectedFiles (removeFile st index)
  = firstn index (selectedFiles st) ++ skipn (S index) (selectedFiles st).
Proof.
  unfold removeFile. cbn [selectedFiles].
  rewrite removeFile_from. cbn. rewrite Nat.sub_0_r. reflexivity.
Qed.

(** X1.  [removeFile(index)] takes out the file at [index] and nothing else: an
    index past the end leaves the selection as it is, an index within it
    shortens the selection by one; the error is cleared either way. *)
Theorem removeFile_drops_index (st : UploadPDF.State) (index : nat) :
  let l := selectedFiles st in
  let l' := selectedFiles (removeFile st index) in
  l' = firstn index l ++ skipn (S index) l
  /\ (length l <= index -> l' = l)%nat
  /\ (index < length l -> S (length l') = length l)%nat
  /\ UploadPDF.error (removeFile st index) = "".
Proof.
  cbv zeta. rewrite removeFile_selection.
  split; [reflexivity|]. split; [|split; [|reflexivity]].
  - intros H. rewrite List.firstn_all2 by lia. rewrite List.skipn_all2 by lia.
    apply List.app_nil_r.
  - intros H. rewrite length_app, List.length_firstn, List.length_skipn. lia.
Qed.

Lemma removeFile_drops_index_witness :
  selectedFiles (removeFile
     {| selectedFiles := [reportA; labResults]; isUploading := false;
        UploadPDF.error := "x"; success := "" |} 7)
  = [reportA; labResults].
Proof.
  apply (removeFile_drops_index
     {| selectedFiles := [reportA; labResults]; isUploading := false;
        UploadPDF.error := "x"; success := "" |} 7).
  simpl. lia.
Defined.

Lemma append_truthy a b : b <> "" -> a +:+ b <> "".
Proof.
  intros Hb H. destruct a; simpl in H; [contradiction | discriminate].
Qed.

Lemma visit_errors_truthy v e a :
  Forall (fun x => x <> "") e -> Forall (fun x => x <> "") (snd (visit (v, e) a)).
Proof.
  intros He. unfold visit.
  destruct (negb (isPDF a)); [|destruct (tooLarge a);
    [|destruct (existsb (sameNameAndSize a) v)]]; simpl; try assumption;
    (apply Forall_app; split; [assumption|]; constructor; [|constructor];
     apply append_truthy; discriminate).
Qed.

Lemma scan_errors_truthy files : forall v e,
  Forall (fun x => x <> "") e ->
  Forall (fun x => x <> "") (snd (fold_left visit files (v, e))).
Proof.
  induction files as [|a rest IH]; intros v e He; cbn [fold_left]; [assumption|].
  pose proof (visit_errors_truthy v e a He) as H.
  destruct (visit (v, e) a) as [v1 e1]. apply IH. exact H.
Qed.

Lemma join_truthy sep x xs : x <> "" -> JS.join sep (x :: xs) <> "".
Proof.
  intros Hx. unfold JS.join. simpl. destruct xs; [assumption|].
  intros H. destruct x; [contradiction | discriminate].
Qed.

(** With no error gathered, every file was kept. *)
Lemma scan_all_kept files : forall v e,
  snd (fold_left visit files (v, e)) = [] ->
  e = [] /\ fst (fold_left visit files (v, e)) = v ++ files.
Proof.
  induction files as [|a rest IH]; intros v e; cbn [fold_left].
  - simpl. intros ->. rewrite List.app_nil_r. auto.
  - generalize (visit_cases v e a). generalize (visit (v, e) a). intros r Hr.
    destruct Hr as [reason Hna | reason h Ha Hin Hc | Ha Hfresh]; intros H.
    + exfalso.
      assert (Hx : In (name a +:+ reason) (snd (fold_left visit rest (v, e ++ [name a +:+ reason]))))
        by (apply scan_errors_grow; apply in_or_app; right; left; reflexivity).
      rewrite H in Hx. destruct Hx.
    + exfalso.
      assert (Hx : In (name a +:+ reason) (snd (fold_left visit rest (v, e ++ [name a +:+ reason]))))
        by (apply scan_errors_grow; apply in_or_app; right; left; reflexivity).
      rewrite H in Hx. destruct Hx.
    + destruct (IH _ _ H) as [-> Hk]. split; [reflexivity|].
      rewrite Hk, <- List.app_assoc. reflexivity.
Qed.

Lemma error_blank_iff (st : UploadPDF.State) (files : list File) :
  UploadPDF.error (handleFileChange st files) = ""
  <-> selectedFiles (handleFileChange st files) = files.
Proof.
  rewrite error_scan, selectedFiles_scan. unfold scan. split.
  - intros H.
    destruct (snd (fold_left visit files ([], []))) as [|x xs] eqn:E.
    + apply scan_all_kept in E. destruct E as [_ E]. exact E.
    + exfalso.
      pose proof (scan_errors_truthy files [] [] (List.Forall_nil _)) as Ht.
      rewrite E in Ht. inversion Ht; subst.
      apply (join_truthy ", " x xs); assumption.
  - intros H. pose proof (scan_count files [] []) as Hc.
    rewrite H in Hc. simpl in Hc.
    destruct (snd (fold_left visit files ([], []))); [reflexivity | simpl in Hc; lia].
Qed.

(** X2.  The error of [handleFileChange] is blank exactly when the whole batch
    was selected, in its order. *)
Theorem handleFileChange_error_blank (st : UploadPDF.State) (files : list File) :
  UploadPDF.error (handleFileChange st files) = ""
  <-> selectedFiles (handleFileChange st files) = files.
Proof. apply error_blank_iff. Qed.

Lemma handleFileChange_error_blank_witness :
  UploadPDF.error (handleFileChange UploadPDF.initial [reportA; labResults]) = "".
Proof.
  apply (proj2 (handleFileChange_error_blank UploadPDF.initial [reportA; labResults])).
  vm_compute. reflexivity.
Defined.

(** A batch of acceptable files without collisions is kept whole. *)
Lemma scan_clean l : forall v e,
  (forall f, In f l -> acceptable f) ->
  NoDup (map fileKey (v ++ l)) ->
  fold_left visit l (v, e) = (v ++ l, e).
Proof.
  induction l as [|a l IH]; intros v e Hacc Hnd; cbn [fold_left].
  - rewrite List.app_nil_r. reflexivity.
  - assert (Ha : acceptable a) by (apply Hacc; left; reflexivity).
    apply acceptable_tests in Ha. destruct Ha as [H1 H2].
    assert (H3 : existsb (sameNameAndSize a) v = false).
    { destruct (existsb (sameNameAndSize a) v) eqn:E; [|reflexivity]. exfalso.
      apply some_collides in E. destruct E as (h & Hh & [Hn Hs]).
      rewrite map_app in Hnd. apply NoDup_app in Hnd.
      destruct Hnd as (_ & Hdis & _).
      apply (Hdis (fileKey h)).
      - apply list_elem_of_In. apply in_map. assumption.
      - apply list_elem_of_In. simpl. left. unfold fileKey. congruence. }
    assert (Hv : visit (v, e) a = (v ++ [a], e))
      by (unfold visit; rewrite H1, H2, H3; reflexivity).
    rewrite Hv, IH.
    + rewrite <- List.app_assoc. reflexivity.
    + intros f Hf. apply Hacc. right. assumption.
    + rewrite <- List.app_assoc. exact Hnd.
Qed.

Lemma scan_acceptable files f : In f (fst (scan files)) -> acceptable f.
Proof.
  unfold scan. rewrite scan_kept. intros [[]|(pre & post & _ & H & _)]. exact H.
Qed.

(** X3.  Submitting the selection again changes nothing: [handleFileChange]
    applied to the selection it produced selects the same files and
    reports no error. *)
Theorem handleFileChange_idempotent (st st' : UploadPDF.State) (files : list File) :
  let chosen := selectedFiles (handleFileChange st files) in
  selectedFiles (handleFileChange st' chosen) = chosen
  /\ UploadPDF.error (handleFileChange st' chosen) = "".
Proof.
  cbv zeta.
  assert (H : selectedFiles (handleFileChange st' (selectedFiles (handleFileChange st files)))
              = selectedFiles (handleFileChange st files)).
  { rewrite !selectedFiles_scan. unfold scan at 1.
    rewrite scan_clean; [reflexivity| |].
    - intros f. apply scan_acceptable.
    - simpl. apply scan_NoDup. constructor. }
  split; [exact H|]. apply error_blank_iff. exact H.
Qed.

(** ** UploadPDF: the upload *)

Lemma markAll_marked files p key : forall m,
  m !! key = Some p \/ (exists f, In f files /\ name f = key) ->
  HandleUpload.markAll files p m !! key = Some p.
Proof.
  unfold HandleUpload.markAll.
  induction files as [|a rest IH]; intros m H; cbn [fold_left].
  - destruct H as [H|(f & [] & _)]. exact H.
  - apply IH. destruct (decide (name a = key)) as [E|E].
    + left. rewrite E. apply lookup_insert_eq.
    + destruct H as [H|(f & [<-|Hf] & Hk)].
      * left. rewrite lookup_insert_ne by assumption. exact H.
      * contradiction.
      * right. eauto.
Qed.

Lemma markAll_others files p key : forall m,
  (forall f, In f files -> name f <> key) ->
  HandleUpload.markAll files p m !! key = m !! key.
Proof.
  unfold HandleUpload.markAll.
  induction files as [|a rest IH]; intros m H; cbn [fold_left]; [reflexivity|].
  rewrite IH by (intros f Hf; apply H; right; assumption).
  apply lookup_insert_ne. apply H. left. reflexivity.
Qed.

Lemma drop_index_In {A} (l : list A) : forall i x,
  In x (firstn i l ++ skipn (S i) l) -> In x l.
Proof.
  induction l as [|y l IH]; intros [|i] x; simpl; try tauto.
  intros [H|H]; [auto|]. right. apply (IH i). exact H.
Qed.

Lemma drop_index_NoDup {A B} (f : A -> B) (l : list A) : forall i,
  List.NoDup (map f l) -> List.NoDup (map f (firstn i l ++ skipn (S i) l)).
Proof.
  induction l as [|y l IH]; intros [|i] H; simpl; try assumption.
  - inversion H; assumption.
  - inversion H as [|? ? Hy Hl]; subst. constructor.
    + intros Hin. apply Hy. apply in_map_iff in Hin.
      destruct Hin as (x & <- & Hx). apply in_map. apply (drop_index_In l i). exact Hx.
    + apply IH. exact Hl.
Qed.

Lemma upload_end_selection c fs r :
  selectedFiles (HandleUpload.base (fst (HandleUpload.handleUpload_end c fs r))) = []
  \/ selectedFiles (HandleUpload.base (fst (HandleUpload.handleUpload_end c fs r)))
     = selectedFiles (HandleUpload.base c).
Proof.
  unfold HandleUpload.handleUpload_end.
  destruct (HandleUpload.uploadTry r) as [data|e].
  - left. destruct (HandleUpload.warnings data) as [[|w ws]|]; reflexivity.
  - right. reflexivity.
Qed.

Lemma step_sound sessionId c ev :
  HandleUpload.sound c -> HandleUpload.sound (HandleUpload.step sessionId c ev).
Proof.
  intros [Hacc Hnd].
  destruct ev as [files|index| | |fs pct|fs r| | |]; try (split; assumption).
  - split; cbn; rewrite selectedFiles_scan.
    + intros f. apply scan_acceptable.
    + apply scan_NoDup. constructor.
  - cbn [HandleUpload.step].
    split; cbn [HandleUpload.base HandleUpload.setBase]; rewrite removeFile_selection.
    + intros f Hf. apply Hacc. apply (drop_index_In _ index). exact Hf.
    + apply NoDup_ListNoDup. apply drop_index_NoDup. apply NoDup_ListNoDup. exact Hnd.
  - split; cbn; [intros f []|constructor].
  - cbn [HandleUpload.step]. unfold HandleUpload.handleUpload_begin.
    destruct (length (selectedFiles (HandleUpload.base c)) =? 0)%nat;
      [split; assumption|].
    destruct (negb (JS.truthy sessionId)); split; assumption.
  - cbn [HandleUpload.step].
    destruct (upload_end_selection c fs r) as [E|E]; split; rewrite E;
      try assumption; [intros f []|constructor].
Qed.

Lemma reachable_sound sessionId c :
  HandleUpload.reachable sessionId c -> HandleUpload.sound c.
Proof.
  intros [evs <-]. unfold HandleUpload.run.
  assert (H : HandleUpload.sound HandleUpload.initial)
    by (split; cbn; [intros f []|constructor]).
  revert H. generalize HandleUpload.initial.
  induction evs as [|ev evs IH]; intros c0 H; simpl; [exact H|].
  apply IH. apply step_sound. exact H.
Qed.

(** X4.  Whatever sequence of selections, removals, uploads and timers led to
    it, a request issued by [handleUpload] carries the session id, which is
    not empty, and the whole selection, which is not empty, holds only PDFs
    of at most 10 MB and no two files of the same name and size. *)
Theorem handleUpload_request_checked (sessionId : string)
    (c c' : HandleUpload.Component) (req : HandleUpload.UploadRequest) :
  HandleUpload.reachable sessionId c ->
  HandleUpload.handleUpload_begin sessionId c = (c', Some req) ->
  HandleUpload.form_session_id req = sessionId
  /\ sessionId <> ""
  /\ HandleUpload.form_files req = selectedFiles (HandleUpload.base c)
  /\ HandleUpload.form_files req <> []
  /\ (forall f, In f (HandleUpload.form_files req) -> acceptable f)
  /\ NoDup (map fileKey (HandleUpload.form_files req)).
Proof.
  intros Hreach. apply reachable_sound in Hreach. destruct Hreach as [Hacc Hnd].
  unfold HandleUpload.handleUpload_begin.
  destruct (selectedFiles (HandleUpload.base c)) as [|f fs] eqn:Esel; cbn [length Nat.eqb].
  - discriminate.
  - destruct (JS.truthy sessionId) eqn:Et; cbn [negb]; [|discriminate].
    intros H. inversion H; subst; clear H. cbn.
    split; [reflexivity|]. split.
    + intros ->. discriminate.
    + split; [reflexivity|]. split; [discriminate|]. split; assumption.
Qed.

Lemma handleUpload_request_checked_witness :
  HandleUpload.form_files
    {| HandleUpload.form_session_id := "s1"; HandleUpload.form_files := [reportA] |}
  = selectedFiles (HandleUpload.base
      (HandleUpload.run "s1" [HandleUpload.FileChange [notes; reportA; reportB]])).
Proof.
  refine (proj1 (proj2 (proj2 (handleUpload_request_checked "s1"
     (HandleUpload.run "s1" [HandleUpload.FileChange [notes; reportA; reportB]])
     (fst (HandleUpload.handleUpload_begin "s1"
        (HandleUpload.run "s1" [HandleUpload.FileChange [notes; reportA; reportB]])))
     {| HandleUpload.form_session_id := "s1"; HandleUpload.form_files := [reportA] |}
     _ _)))).
  - exists [HandleUpload.FileChange [notes; reportA; reportB]]. reflexivity.
  - vm_compute. reflexivity.
Defined.

(** X5.  A failed upload (request rejected or [success = false]) keeps the
    selection, so that the upload can be tried again: the parent is not
    notified, the uploading flag is down, the error is not empty, every
    file the upload was started with is marked failed and the progress of
    other names is untouched. *)
Theorem handleUpload_failure_keeps_selection (c : HandleUpload.Component)
    (fs : list File) (r : Outcome HandleUpload.UploadData) :
  HandleUpload.failedUpload r ->
  let c' := fst (HandleUpload.handleUpload_end c fs r) in
  selectedFiles (HandleUpload.base c') = selectedFiles (HandleUpload.base c)
  /\ snd (HandleUpload.handleUpload_end c fs r) = None
  /\ isUploading (HandleUpload.base c') = false
  /\ UploadPDF.error (HandleUpload.base c') <> ""
  /\ (forall f, In f fs ->
        HandleUpload.uploadProgress c' !! name f
        = Some (HandleUpload.mkProgress HandleUpload.failed 0))
  /\ (forall key, (forall f, In f fs -> name f <> key) ->
        HandleUpload.uploadProgress c' !! key = HandleUpload.uploadProgress c !! key).
Proof.
  intros Hfail. cbv zeta. unfold HandleUpload.handleUpload_end.
  assert (He : exists e, HandleUpload.uploadTry r = inr e).
  { destruct r as [data|e]; simpl in *; [rewrite Hfail|]; eauto. }
  destruct He as [e ->].
  assert (Hm : HandleUpload.uploadErrorMessage e <> "")
    by (apply orElse_truthy; discriminate).
  revert Hm. generalize (HandleUpload.uploadErrorMessage e). intros em Hm. cbn.
  split; [reflexivity|]. split; [reflexivity|]. split; [reflexivity|]. split.
  - exact Hm.
  - split.
    + intros f Hf. apply markAll_marked. right. eauto.
    + intros key Hk. apply markAll_others. exact Hk.
Qed.

Lemma handleUpload_failure_keeps_selection_witness :
  selectedFiles (HandleUpload.base (fst (HandleUpload.handleUpload_end
     (HandleUpload.run "s1" [HandleUpload.FileChange [reportA]; HandleUpload.UploadClicked])
     [reportA] (Rejected (mkThrown None "Network Error")))))
  = [reportA].
Proof.
  exact (proj1 (handleUpload_failure_keeps_selection
     (HandleUpload.run "s1" [HandleUpload.FileChange [reportA]; HandleUpload.UploadClicked])
     [reportA] (Rejected (mkThrown None "Network Error")) I)).
Defined.

(** X6.  A successful upload, from the click to the [finally] block: the
    selection is emptied, the parent receives exactly [uploaded_pdfs], the
    success message counts them, the uploading flag is down, the error
    holds the warnings of the server if there are any and is blank
    otherwise, and every file of the selection is marked completed. *)
Theorem handleUpload_success_turn (sessionId : string) (c : HandleUpload.Component)
    (data : HandleUpload.UploadData) :
  selectedFiles (HandleUpload.base c) <> [] ->
  sessionId <> "" ->
  HandleUpload.upload_success data = true ->
  let fs := selectedFiles (HandleUpload.base c) in
  let c1 := fst (HandleUpload.handleUpload_begin sessionId c) in
  let done := HandleUpload.handleUpload_end c1 fs (Resolved data) in
  selectedFiles (HandleUpload.base (fst done)) = []
  /\ snd done = Some (HandleUpload.uploaded_pdfs data)
  /\ success (HandleUpload.base (fst done))
     = HandleUpload.successMessage (length (HandleUpload.uploaded_pdfs data))
  /\ isUploading (HandleUpload.base (fst done)) = false
  /\ UploadPDF.error (HandleUpload.base (fst done))
     = match HandleUpload.warnings data with
       | Some (w :: ws) => "Warnings: " +:+ JS.join ", " (w :: ws)
       | _ => ""
       end
  /\ (forall f, In f fs ->
        HandleUpload.uploadProgress (fst done) !! name f
        = Some (HandleUpload.mkProgress HandleUpload.completed 100))
  /\ (forall key, (forall f, In f fs -> name f <> key) ->
        HandleUpload.uploadProgress (fst done) !! key = None).
Proof.
  intros Hsel Hsid Hok. cbv zeta.
  unfold HandleUpload.handleUpload_begin.
  assert (Hlen : (length (selectedFiles (HandleUpload.base c)) =? 0)%nat = false)
    by (destruct (selectedFiles (HandleUpload.base c)); [contradiction|reflexivity]).
  assert (Ht : JS.truthy sessionId = true).
  { destruct (JS.truthy sessionId) eqn:E; [reflexivity|].
    apply truthy_false in E. contradiction. }
  rewrite Hlen, Ht. cbn [negb fst].
  unfold HandleUpload.handleUpload_end. cbn [HandleUpload.uploadTry]. rewrite Hok.
  destruct (HandleUpload.warnings data) as [[|w ws]|]; cbn -[HandleUpload.markAll];
    (repeat (split; [reflexivity|])); split.
  all: try (intros f Hf; apply markAll_marked; right; eauto).
  all: intros key Hk; rewrite !markAll_others by exact Hk; apply lookup_empty.
Qed.

Lemma handleUpload_success_turn_witness :
  snd (HandleUpload.handleUpload_end
         (fst (HandleUpload.handleUpload_begin "s1"
                 (HandleUpload.run "s1" [HandleUpload.FileChange [reportA]])))
         (selectedFiles (HandleUpload.base
                 (HandleUpload.run "s1" [HandleUpload.FileChange [reportA]])))
         (Resolved (HandleUpload.mkUploadData true
                      [mkPDF 1 "report.pdf" 2048 "t" 3] None None)))
  = Some [mkPDF 1 "report.pdf" 2048 "t" 3].
Proof.
  refine (proj1 (proj2 (handleUpload_success_turn "s1"
     (HandleUpload.run "s1" [HandleUpload.FileChange [reportA]])
     (HandleUpload.mkUploadData true [mkPDF 1 "report.pdf" 2048 "t" 3] None None)
     _ _ _))).
  - vm_compute. discriminate.
  - discriminate.
  - reflexivity.
Defined.

(** ** formatFileSize within its four units *)

Lemma k_pow_pos i : 0 <= i -> 0 < k ^ i.
Proof. intros H. unfold k. apply Z.pow_pos_nonneg; lia. Qed.

Lemma formatFileSize_unfold bytes i :
  0 <= i -> k ^ i <= bytes < k ^ (i + 1) ->
  formatFileSize bytes = fixed2 bytes (k ^ i) +:+ " " +:+ unitAt i.
Proof.
  intros Hi Hb. pose proof (k_pow_pos i Hi) as Hk.
  unfold formatFileSize.
  destruct (Z.eqb_spec bytes 0) as [E|_]; [lia|].
  destruct (Z.ltb_spec bytes 0) as [E|_]; [lia|].
  cbv zeta. rewrite (proj2 (sizeIndex_range bytes i ltac:(lia) Hi) Hb). reflexivity.
Qed.

(** X8.  A count of [n] whole units, [n] from 1 to 1023, is printed as [n]
    followed by the unit: [n] bytes as ["n Bytes"], [n * 1024] as
    ["n KB"], and so on; from the fifth power of 1024 on the unit printed
    is [undefined]. *)
Theorem formatFileSize_whole_units (n i : Z) :
  1 <= n < 1024 -> 0 <= i ->
  formatFileSize (n * k ^ i) = JS.digits n +:+ " " +:+ unitAt i.
Proof.
  intros Hn Hi. pose proof (k_pow_pos i Hi) as Hk.
  rewrite (formatFileSize_unfold _ i Hi).
  - f_equal. unfold fixed2.
    assert (E : (200 * (n * k ^ i) + k ^ i) / (2 * k ^ i) = 100 * n).
    { symmetry. apply (Z.div_unique_pos _ _ _ (k ^ i)); lia. }
    rewrite E.
    replace (100 * n) with (n * 100) by lia.
    rewrite Z.mod_mul by lia. rewrite Z.div_mul by lia. reflexivity.
  - rewrite Z.pow_add_r by lia. change (k ^ 1) with 1024. nia.
Qed.

Lemma formatFileSize_whole_units_witness :
  formatFileSize (10 * k ^ 2) = JS.digits 10 +:+ " " +:+ unitAt 2.
Proof. apply formatFileSize_whole_units; lia. Defined.

(** X9.  Between the [i]-th power of 1024 and the next, for [i] from 0 to 3,
    the unit printed is the [i]-th of Bytes, KB, MB, GB. *)
Theorem formatFileSize_unit_of_range (bytes i : Z) :
  0 <= i < 4 -> k ^ i <= bytes < k ^ (i + 1) ->
  exists number,
    formatFileSize bytes = number +:+ " " +:+ nth (Z.to_nat i) sizes "".
Proof.
  intros Hi Hb. exists (fixed2 bytes (k ^ i)).
  rewrite (formatFileSize_unfold _ i) by (lia || assumption).
  do 2 f_equal. unfold unitAt.
  assert (Hc : i = 0 \/ i = 1 \/ i = 2 \/ i = 3) by lia.
  destruct Hc as [-> | [-> | [-> | ->]]]; reflexivity.
Qed.

Lemma formatFileSize_unit_of_range_witness :
  exists number,
    formatFileSize 5000000 = number +:+ " " +:+ nth (Z.to_nat 2) sizes "".
Proof. apply formatFileSize_unit_of_range; vm_compute; split; congruence. Defined.

Lemma formatFileSize_unit_below bytes j :
  0 <= j < 4 -> 0 <= bytes < k ^ (j + 1) ->
  exists number u,
    formatFileSize bytes = number +:+ " " +:+ u
    /\ In u (firstn (Z.to_nat (j + 1)) sizes).
Proof.
  intros Hj [Hb Hlt].
  destruct (Z.eq_dec bytes 0) as [->|Hne].
  - exists "0", "Bytes". split; [reflexivity|].
    replace (Z.to_nat (j + 1)) with (S (Z.to_nat j)) by lia. left. reflexivity.
  - assert (Hi : 0 <= sizeIndex bytes < j + 1).
    { unfold sizeIndex. split; [apply Z.div_pos; [apply Z.log2_nonneg|lia]|].
      apply Z.div_lt_upper_bound; [lia|].
      apply Z.log2_lt_pow2; [lia|].
      unfold k in Hlt. change 1024 with (2 ^ 10) in Hlt.
      rewrite <- Z.pow_mul_r in Hlt by lia. exact Hlt. }
    remember (sizeIndex bytes) as i eqn:Ei. symmetry in Ei.
    apply sizeIndex_range in Ei; [|lia|lia].
    exists (fixed2 bytes (k ^ i)), (unitAt i).
    split; [apply formatFileSize_unfold; [lia|assumption]|].
    assert (Hc : (i = 0 \/ i = 1 \/ i = 2 \/ i = 3) /\ (j = 0 \/ j = 1 \/ j = 2 \/ j = 3))
      by lia.
    destruct Hc as [[-> | [-> | [-> | ->]]] [-> | [-> | [-> | ->]]]];
      try lia; vm_compute; tauto.
Qed.

(** X7.  Every file the selection list shows gets a size in Bytes, KB or MB:
    the 10 MB limit of [handleFileChange] keeps [formatFileSize] within
    the first three units. *)
Theorem selected_file_size_unit (st : UploadPDF.State) (files : list File) (f : File) :
  In f (selectedFiles (handleFileChange st files)) ->
  0 <= size f ->
  exists number u,
    formatFileSize (size f) = number +:+ " " +:+ u
    /\ In u ["Bytes"; "KB"; "MB"].
Proof.
  intros Hin Hpos. rewrite selectedFiles_scan in Hin.
  apply scan_acceptable in Hin. destruct Hin as [_ Hmax].
  apply (formatFileSize_unit_below (size f) 2); [lia|].
  split; [assumption|]. change (k ^ (2 + 1)) with 1073741824. lia.
Qed.

Lemma selected_file_size_unit_witness :
  exists number u,
    formatFileSize (size labResults) = number +:+ " " +:+ u
    /\ In u ["Bytes"; "KB"; "MB"].
Proof.
  apply (selected_file_size_unit UploadPDF.initial [notes; labResults]).
  - vm_compute. left. reflexivity.
  - vm_compute. discriminate.
Defined.

(** ** PDFManager: totals and flags *)

Lemma getTotalSize_from (pdfs : list PDF) : forall a,
  fold_left (fun total pdf => total + file_size pdf) pdfs a = a + getTotalSize pdfs.
Proof.
  unfold getTotalSize.
  induction pdfs as [|p pdfs IH]; intros a; simpl; [lia|].
  rewrite (IH (a + file_size p)), (IH (0 + file_size p)). lia.
Qed.

Lemma getTotalSize_cons p pdfs : getTotalSize (p :: pdfs) = file_size p + getTotalSize pdfs.
Proof. unfold getTotalSize at 1. simpl. apply getTotalSize_from. Qed.

Lemma getTotalSize_app xs ys : getTotalSize (xs ++ ys) = getTotalSize xs + getTotalSize ys.
Proof.
  induction xs as [|x xs IH]; simpl; [reflexivity|].
  rewrite !getTotalSize_cons, IH. lia.
Qed.

(** X10.  The total shown by [PDFManager] follows the list: an upload adds the
    sizes of the new documents, a removal of id [X] subtracts the sizes of
    the entries with that id. *)
Theorem getTotalSize_follows_list (app : AppState) (X : Z) (newPDFs : list PDF) :
  getTotalSize (uploadedPDFs (handlePDFsUploaded app newPDFs))
  = getTotalSize (uploadedPDFs app) + getTotalSize newPDFs
  /\ getTotalSize (uploadedPDFs (handlePDFRemoved app X))
     = getTotalSize (uploadedPDFs app)
       - getTotalSize (List.filter (fun pdf => id pdf =? X) (uploadedPDFs app)).
Proof.
  split; [apply getTotalSize_app|]. simpl.
  induction (uploadedPDFs app) as [|p pdfs IH]; [reflexivity|].
  cbn [List.filter]. destruct (id p =? X); cbn [negb];
    rewrite !getTotalSize_cons; lia.
Qed.

(** X11.  With at most 104857 documents of at most 10 MB each, the total shown
    by [PDFManager] carries one of the four units. *)
Theorem getTotalSize_unit_known (pdfs : list PDF) :
  (forall pdf, In pdf pdfs -> 0 <= file_size pdf <= 10 * 1024 * 1024) ->
  Z.of_nat (length pdfs) <= 104857 ->
  exists number u,
    formatFileSize (getTotalSize pdfs) = number +:+ " " +:+ u /\ In u sizes.
Proof.
  intros Hsize Hlen.
  assert (Hb : 0 <= getTotalSize pdfs <= 10485760 * Z.of_nat (length pdfs)).
  { clear Hlen. induction pdfs as [|p pdfs IH]; [unfold getTotalSize; simpl; lia|].
    rewrite getTotalSize_cons.
    assert (0 <= file_size p <= 10 * 1024 * 1024) by (apply Hsize; left; reflexivity).
    assert (0 <= getTotalSize pdfs <= 10485760 * Z.of_nat (length pdfs))
      by (apply IH; intros q Hq; apply Hsize; right; assumption).
    cbn [length]. lia. }
  destruct (formatFileSize_unit_below (getTotalSize pdfs) 3) as (number & u & H1 & H2).
  - lia.
  - change (k ^ (3 + 1)) with 1099511627776. lia.
  - exists number, u. split; assumption.
Qed.

Lemma getTotalSize_unit_known_witness :
  exists number u,
    formatFileSize (getTotalSize [mkPDF 1 "a.pdf" 4096 "t" 3; mkPDF 2 "b.pdf" 10485760 "t" 9])
    = number +:+ " " +:+ u /\ In u sizes.
Proof.
  apply getTotalSize_unit_known.
  - intros pdf [<-|[<-|[]]]; simpl; lia.
  - simpl. lia.
Defined.

(** X12.  [removePDF], once confirmed, ends with the removing flag of its
    document set to [false] whatever the outcome, and leaves the flag of
    every other document as it was; declined, it changes no flag. *)
Theorem removePDF_flags (app : AppState) (st : PDFManager.State) (X : Z)
    (filename : string) (r : Outcome RemoveData) :
  isRemoving (snd (removePDF app st X filename true r)) !! X = Some false
  /\ (forall Y, Y <> X ->
        isRemoving (snd (removePDF app st X filename true r)) !! Y = isRemoving st !! Y)
  /\ snd (removePDF app st X filename false r) = st.
Proof.
  unfold removePDF. cbn [negb].
  destruct (removeTry r); cbn [snd isRemoving].
  - split; [apply lookup_insert_eq|]. split; [|reflexivity].
    intros Y HY. rewrite !lookup_insert_ne by congruence. reflexivity.
  - split; [apply lookup_insert_eq|]. split; [|reflexivity].
    intros Y HY. rewrite !lookup_insert_ne by congruence. reflexivity.
Qed.

Lemma removePDF_flags_witness :
  isRemoving (snd (removePDF
      {| sessionId := "s1"; uploadedPDFs := [mkPDF 1 "a.pdf" 100 "t" 3] |}
      {| isRemoving := <[2 := true]> ∅; PDFManager.error := "" |} 1 "a.pdf" true
      (Rejected (mkThrown None "Network Error")))) !! 2
  = (<[2 := true]> (∅ : gmap Z bool)) !! 2.
Proof.
  refine (proj1 (proj2 (removePDF_flags
      {| sessionId := "s1"; uploadedPDFs := [mkPDF 1 "a.pdf" 100 "t" 3] |}
      {| isRemoving := <[2 := true]> ∅; PDFManager.error := "" |} 1 "a.pdf"
      (Rejected (mkThrown None "Network Error")))) 2 _).
  discriminate.
Defined.

(** ** Chatbot: turns that succeed, and the placeholder *)

(** X13.  In a state the component can reach, with a non-blank input and no
    request in flight, a turn that is answered with [success = true] issues
    one request with the trimmed input and the session id and ends,
    whatever bystanders came between the request and its answer, with the
    message list it started from, then the user's trimmed message, then one
    bot message with the reply and its metadata; the placeholder is gone
    and the loading flag is down; when the request is sent the input and
    the error are blank. *)
Theorem sendMessage_answered_turn (sessionId : string) (st : Chatbot.State)
    (now1 now2 now3 : string) (data : ChatData) (evs : list Chatbot.Event) :
  Chatbot.reachable sessionId st ->
  ~ JS.blank (input st) ->
  loading st = false ->
  chat_success data = true ->
  Forall bystander evs ->
  let st1 := fst (sendMessage_begin sessionId st now1 now2) in
  let st2 := sendMessage_end (fold_left (Chatbot.step sessionId) evs st1)
               (Resolved data) now3 in
  Chatbot.messages st2 =
    Chatbot.messages st
    ++ [ {| sender := user; text := JS.trim (input st); timestamp := now1;
            isLoading := false; isError := false; responseTime := None;
            contextUsed := None; sourcesCount := None |};
         {| sender := bot; text := reply data; timestamp := now3;
            isLoading := false; isError := false;
            responseTime := Some (chat_response_time_ms data);
            contextUsed := Some (context_used data);
            sourcesCount := Some (sources_count data) |} ]
  /\ snd (sendMessage_begin sessionId st now1 now2)
     = Some {| req_message := JS.trim (input st); req_session_id := sessionId |}
  /\ input st1 = ""
  /\ Chatbot.error st1 = ""
  /\ loading st2 = false.
Proof.
  intros Hreach Hinput Hload Hok Hevs. cbv zeta.
  assert (Hq : Forall settled (Chatbot.messages st))
    by (apply (reachable_quiet sessionId); assumption).
  rewrite (sendMessage_begin_sends sessionId st now1 now2 Hinput Hload). cbn [fst snd].
  match goal with
  | |- context [fold_left (Chatbot.step sessionId) evs ?s] =>
      destruct (bystanders_run sessionId evs s Hevs eq_refl) as [Hm _];
      cbn [Chatbot.messages] in Hm
  end.
  unfold sendMessage_end. cbn [chatTry]. rewrite Hok.
  cbn [Chatbot.messages setMessages Chatbot.setError setIsLoading Chatbot.error loading input].
  rewrite Hm, withoutLoading_turn by (assumption || reflexivity).
  rewrite <- List.app_assoc.
  repeat split; reflexivity.
Qed.

Lemma sendMessage_answered_turn_witness :
  snd (sendMessage_begin "s1" (Chatbot.run "s1" [Typed paddedQuestion]) "t1" "t2")
  = Some {| req_message := "fever?"; req_session_id := "s1" |}.
Proof.
  refine (proj1 (proj2 (sendMessage_answered_turn "s1"
     (Chatbot.run "s1" [Typed paddedQuestion]) "t1" "t2" "t3"
     (mkChatData true "500 mg" 120 true 2 None) [Typed "next"] _ _ _ _ _))).
  - exists [Typed paddedQuestion]. reflexivity.
  - intros H. apply blank_iff_trim in H. vm_compute in H. discriminate.
  - reflexivity.
  - reflexivity.
  - constructor; [exact I | constructor].
Defined.

(** X14.  Whatever the user and the server did, the message list holds at most
    one loading placeholder; when it holds one, a request is in flight and
    the placeholder is the last message. *)
Theorem placeholder_last_and_alone (sessionId : string) (st : Chatbot.State) :
  Chatbot.reachable sessionId st ->
  exists ms, Forall settled ms
    /\ (Chatbot.messages st = ms
        \/ (loading st = true
            /\ exists now, Chatbot.messages st = ms ++ [loadingMsgObj now])).
Proof.
  intros [evs <-]. unfold Chatbot.run.
  assert (H : tidy Chatbot.initial)
    by (exists []; split; [constructor | left; reflexivity]).
  revert H. generalize Chatbot.initial.
  induction evs as [|ev evs IH]; intros s0 H; simpl; [exact H|].
  apply IH. apply step_tidy. exact H.
Qed.

Lemma placeholder_last_and_alone_witness :
  exists ms, Forall settled ms
    /\ (Chatbot.messages (Chatbot.run "s1" [Typed "hi"; Send "t1" "t2"]) = ms
        \/ (loading (Chatbot.run "s1" [Typed "hi"; Send "t1" "t2"]) = true
            /\ exists now,
                 Chatbot.messages (Chatbot.run "s1" [Typed "hi"; Send "t1" "t2"])
                 = ms ++ [loadingMsgObj now])).
Proof.
  apply (placeholder_last_and_alone "s1").
  exists [Typed "hi"; Send "t1" "t2"]. reflexivity.
Defined.

(** ** Chatbot: formatBotText *)

Import BotText.

Lemma without_cons c x s : without c (String x s) <-> x <> c /\ without c s.
Proof. unfold without. simpl. tauto. Qed.

Lemma without_app c s t : without c (s +:+ t) <-> without c s /\ without c t.
Proof.
  induction s as [|x s IH].
  - rewrite append_nil. unfold without at 2. simpl. tauto.
  - rewrite append_cons, !without_cons, IH. tauto.
Qed.

Lemma startsWith_app p r : startsWith p (p +:+ r) = true.
Proof.
  induction p as [|a p IH]; [reflexivity|].
  rewrite append_cons. cbn [startsWith]. rewrite Ascii.eqb_refl. exact IH.
Qed.

Lemma dropChars_app p r : dropChars (String.length p) (p +:+ r) = r.
Proof.
  induction p as [|a p IH]; [reflexivity|].
  rewrite append_cons. cbn [String.length dropChars]. exact IH.
Qed.

Lemma dropChars_length n s : (String.length (dropChars n s) <= String.length s)%nat.
Proof.
  revert s. induction n as [|n IH]; intros [|c s]; simpl; try lia.
  specialize (IH s). lia.
Qed.

Lemma findClose_length delim s capture after :
  findClose delim s = Some (capture, after) ->
  (String.length after <= String.length s)%nat.
Proof.
  revert capture after. induction s as [|c s IH]; intros capture after; simpl.
  - destruct (startsWith delim ""); [|discriminate].
    intros H. inversion H; subst. apply dropChars_length.
  - destruct (startsWith delim (String c s)).
    + intros H. inversion H; subst. apply (dropChars_length _ (String c s)).
    + destruct (lineTerminatorAhead (String c s)); [discriminate|].
      destruct (findClose delim s) as [[cap aft]|]; [|discriminate].
      intros H. inversion H; subst. specialize (IH _ _ eq_refl). lia.
Qed.

(** Any fuel that covers the string gives the same result. *)
Lemma replaceAllFrom_fuel d' opening closing : forall fuel1 fuel2 s,
  (String.length s <= fuel1)%nat -> (String.length s <= fuel2)%nat ->
  replaceAllFrom fuel1 (String star d') opening closing s
  = replaceAllFrom fuel2 (String star d') opening closing s.
Proof.
  induction fuel1 as [|fuel1 IH]; intros fuel2 s H1 H2.
  - destruct s; [|simpl in H1; lia]. destruct fuel2; reflexivity.
  - destruct s as [|c s]; [destruct fuel2; reflexivity|].
    destruct fuel2 as [|fuel2]; [simpl in H2; lia|].
    simpl in H1, H2. cbn [replaceAllFrom].
    destruct (startsWith (String star d') (String c s)).
    + destruct (findClose (String star d')
                  (dropChars (String.length (String star d')) (String c s)))
        as [[capture after]|] eqn:E.
      * apply findClose_length in E.
        pose proof (dropChars_length (String.length d') s) as Hd.
        cbn [String.length dropChars] in E.
        rewrite (IH fuel2 after) by lia. reflexivity.
      * rewrite (IH fuel2 s) by lia. reflexivity.
    + rewrite (IH fuel2 s) by lia. reflexivity.
Qed.

(** A stretch without asterisk is copied, and the search goes on after
    it. *)
Lemma replaceAll_plain_prefix d' opening closing pre s :
  without star pre ->
  replaceAll (String star d') opening closing (pre +:+ s)
  = pre +:+ replaceAll (String star d') opening closing s.
Proof.
  unfold replaceAll.
  induction pre as [|c pre IH]; intros H; [reflexivity|].
  apply without_cons in H. destruct H as [Hc Hpre].
  rewrite !append_cons. cbn [String.length replaceAllFrom startsWith].
  assert (E : Ascii.eqb star c = false) by (apply Ascii.eqb_neq; congruence).
  rewrite E. cbn [andb]. rewrite (IH Hpre). reflexivity.
Qed.

Lemma replaceAll_plain d' opening closing s :
  without star s -> replaceAll (String star d') opening closing s = s.
Proof.
  intros H. rewrite <- (append_empty_r s) at 1.
  rewrite replaceAll_plain_prefix by assumption. apply append_empty_r.
Qed.

(** A line terminator cannot begin in [cap] and end in what follows when
    what follows begins with an asterisk. *)
Lemma lineTerminatorAhead_before_star c cap rest :
  lineTerminatorAhead (String c cap) = false ->
  lineTerminatorAhead (String c (cap +:+ String star rest)) = false.
Proof.
  unfold lineTerminatorAhead, LF, CR, LS, PS.
  cbn [startsWith].
  destruct (Ascii.eqb (ascii_of_nat 10) c); [discriminate|].
  destruct (Ascii.eqb (ascii_of_nat 13) c); [discriminate|].
  destruct (Ascii.eqb (ascii_of_nat 226) c); [|reflexivity].
  cbn [andb orb].
  destruct cap as [|c1 cap]; [reflexivity|]. rewrite append_cons. cbn [startsWith].
  destruct (Ascii.eqb (ascii_of_nat 128) c1); [|reflexivity].
  cbn [andb].
  destruct cap as [|c2 cap]; [reflexivity|]. rewrite append_cons. cbn [startsWith].
  destruct (Ascii.eqb (ascii_of_nat 168) c2), (Ascii.eqb (ascii_of_nat 169) c2);
    cbn; intros H; try discriminate; reflexivity.
Qed.

(** The lazy run stops at the first delimiter after a capture that holds
    no asterisk and no line terminator. *)
Lemma findClose_capture d' cap post :
  without star cap -> oneLine cap ->
  findClose (String star d') (cap +:+ String star d' +:+ post) = Some (cap, post).
Proof.
  induction cap as [|c cap IH]; intros Hw Hl.
  - rewrite append_nil, append_cons. cbn [findClose].
    rewrite <- append_cons, startsWith_app, dropChars_app. reflexivity.
  - apply without_cons in Hw. destruct Hw as [Hc Hw]. destruct Hl as [Hlt Hl].
    rewrite append_cons. cbn [findClose startsWith].
    assert (E : Ascii.eqb star c = false) by (apply Ascii.eqb_neq; congruence).
    rewrite E. cbn [andb].
    rewrite (append_cons star d' post).
    rewrite (lineTerminatorAhead_before_star c cap (d' +:+ post) Hlt).
    rewrite <- (append_cons star d' post).
    rewrite (IH Hw Hl). reflexivity.
Qed.

(** A delimited capture at the head of the string is replaced, and the
    search goes on after the closing delimiter. *)
Lemma replaceAll_match d' opening closing cap post :
  without star cap -> oneLine cap ->
  replaceAll (String star d') opening closing
    (String star d' +:+ cap +:+ String star d' +:+ post)
  = opening +:+ cap +:+ closing +:+ replaceAll (String star d') opening closing post.
Proof.
  intros Hw Hl. unfold replaceAll.
  set (body := cap +:+ String star d' +:+ post).
  assert (Hlen : (String.length post <= String.length (d' +:+ body))%nat).
  { unfold body. rewrite !length_append_s. cbn [String.length]. lia. }
  rewrite (append_cons star d' body). cbn [String.length replaceAllFrom].
  rewrite <- (append_cons star d' body), startsWith_app.
  change (S (String.length d')) with (String.length (String star d')).
  unfold body at 1. rewrite dropChars_app, (findClose_capture d' cap post Hw Hl).
  do 3 f_equal. apply replaceAllFrom_fuel; [exact Hlen|lia].
Qed.

Lemma replaceNewlines_app s t :
  replaceNewlines (s +:+ t) = replaceNewlines s +:+ replaceNewlines t.
Proof.
  induction s as [|c s IH]; [reflexivity|].
  rewrite append_cons. cbn [replaceNewlines].
  destruct (Ascii.eqb c (ascii_of_nat 10)); rewrite IH; [|reflexivity].
  rewrite append_assoc_s. reflexivity.
Qed.

Lemma replaceNewlines_plain s :
  without (ascii_of_nat 10) s -> replaceNewlines s = s.
Proof.
  induction s as [|c s IH]; intros H; simpl; [reflexivity|].
  apply without_cons in H. destruct H as [Hc Hs].
  apply Ascii.eqb_neq in Hc. rewrite Hc, (IH Hs). reflexivity.
Qed.

Lemma oneLine_without_LF s : oneLine s -> without (ascii_of_nat 10) s.
Proof.
  induction s as [|c s IH]; intros H; [intros []|].
  destruct H as [Hlt Hs]. apply without_cons. split; [|apply IH; assumption].
  intros ->. unfold lineTerminatorAhead, LF in Hlt. cbn in Hlt. discriminate.
Qed.

(** X15.  A text without asterisk only has its newlines replaced: every other
    character, markup included, reaches the page as it is; without newline
    either, the text is returned unchanged. *)
Theorem formatBotText_plain (text : string) :
  without star text ->
  formatBotText text = replaceNewlines text
  /\ (without (ascii_of_nat 10) text -> formatBotText text = text).
Proof.
  intros H. unfold formatBotText.
  rewrite (replaceAll_plain "*" _ _ text H), (replaceAll_plain "" _ _ text H).
  split; [reflexivity|]. apply replaceNewlines_plain.
Qed.

Lemma formatBotText_plain_witness :
  formatBotText "<b>Take 2 tablets</b>" = "<b>Take 2 tablets</b>".
Proof.
  refine (proj2 (formatBotText_plain "<b>Take 2 tablets</b>" _) _);
    vm_compute; intuition discriminate.
Defined.

(** X16.  The output of [formatBotText] never holds a newline character. *)
Theorem formatBotText_no_newline (text : string) :
  without (ascii_of_nat 10) (formatBotText text).
Proof.
  unfold formatBotText.
  generalize (replaceAll "*" "<em>" "</em>" (replaceAll "**" "<strong>" "</strong>" text)).
  intros s. induction s as [|c s IH]; simpl; [intros []|].
  destruct (Ascii.eqb c (ascii_of_nat 10)) eqn:E.
  - change ("<br/>" +:+ replaceNewlines s)
      with (String "<" (String "b" (String "r" (String "/" (String ">" (replaceNewlines s)))))).
    repeat (apply without_cons; split; [discriminate|]). exact IH.
  - apply without_cons. split; [|exact IH]. apply Ascii.eqb_neq. exact E.
Qed.

(** X17.  Text between two double asterisks becomes strong: when the text before
    holds no asterisk and the text between holds no asterisk and no line
    terminator, the marked part is wrapped in [<strong>] and the rest of the
    text is formatted on its own. *)
Theorem formatBotText_strong (pre cap post : string) :
  without star pre -> without star cap -> oneLine cap ->
  formatBotText (pre +:+ "**" +:+ cap +:+ "**" +:+ post)
  = replaceNewlines pre +:+ "<strong>" +:+ cap +:+ "</strong>" +:+ formatBotText post.
Proof.
  intros Hpre Hcap Hline. unfold formatBotText.
  change "**" with (String star "*").
  rewrite replaceAll_plain_prefix by assumption.
  rewrite replaceAll_match by assumption.
  change "*" with (String star "").
  set (rest := replaceAll (String star (String star "")) "<strong>" "</strong>" post).
  replace (pre +:+ "<strong>" +:+ cap +:+ "</strong>" +:+ rest)
    with ((pre +:+ "<strong>" +:+ cap +:+ "</strong>") +:+ rest)
    by (rewrite !append_assoc_s; reflexivity).
  rewrite replaceAll_plain_prefix.
  - rewrite !replaceNewlines_app.
    rewrite (replaceNewlines_plain cap) by (apply oneLine_without_LF; assumption).
    rewrite !append_assoc_s. reflexivity.
  - repeat (apply without_app; split); try assumption;
      vm_compute; intuition discriminate.
Qed.

Lemma formatBotText_strong_witness :
  formatBotText ("Take " +:+ "**" +:+ "2 tablets" +:+ "**" +:+ " daily")
  = replaceNewlines "Take " +:+ "<strong>" +:+ "2 tablets" +:+ "</strong>"
      +:+ formatBotText " daily".
Proof.
  apply formatBotText_strong; vm_compute; intuition discriminate.
Defined.

Lemma replaceAll_skip d' opening closing c s :
  startsWith (String star d') (String c s) = false ->
  replaceAll (String star d') opening closing (String c s)
  = String c (replaceAll (String star d') opening closing s).
Proof.
  intros H. unfold replaceAll. cbn [String.length replaceAllFrom].
  rewrite H. reflexivity.
Qed.

(** X18.  Text between two single asterisks becomes emphasised: when the text
    before holds no asterisk, the text between is not empty and holds no
    asterisk and no line terminator, and the text after does not begin
    with an asterisk, the marked part is wrapped in [<em>] and the rest of
    the text is formatted on its own. *)
Theorem formatBotText_em (pre cap post : string) :
  without star pre -> without star cap -> oneLine cap -> cap <> "" ->
  startsWith "*" post = false ->
  formatBotText (pre +:+ "*" +:+ cap +:+ "*" +:+ post)
  = replaceNewlines pre +:+ "<em>" +:+ cap +:+ "</em>" +:+ formatBotText post.
Proof.
  intros Hpre Hcap Hline Hne Hpost. unfold formatBotText.
  set (bold := replaceAll "**" "<strong>" "</strong>").
  assert (Hb : bold (pre +:+ "*" +:+ cap +:+ "*" +:+ post)
               = pre +:+ "*" +:+ cap +:+ "*" +:+ bold post).
  { unfold bold. change "**" with (String star "*").
    rewrite replaceAll_plain_prefix by assumption. f_equal.
    change ("*" +:+ cap +:+ "*" +:+ post) with (String star (cap +:+ "*" +:+ post)).
    rewrite replaceAll_skip.
    - rewrite replaceAll_plain_prefix by assumption.
      change ("*" +:+ post) with (String star post).
      rewrite replaceAll_skip; [reflexivity|].
      cbn [startsWith]. rewrite Ascii.eqb_refl. exact Hpost.
    - destruct cap as [|c cap]; [contradiction|].
      apply without_cons in Hcap. destruct Hcap as [Hc _].
      rewrite append_cons. cbn [startsWith]. rewrite Ascii.eqb_refl.
      assert (E : Ascii.eqb star c = false) by (apply Ascii.eqb_neq; congruence).
      cbn [andb]. change "*"%char with star. rewrite E. reflexivity. }
  rewrite Hb. change "*" with (String star "").
  rewrite replaceAll_plain_prefix by assumption.
  rewrite replaceAll_match by assumption.
  rewrite !replaceNewlines_app.
  rewrite (replaceNewlines_plain cap) by (apply oneLine_without_LF; assumption).
  reflexivity.
Qed.

Lemma formatBotText_em_witness :
  formatBotText ("Avoid " +:+ "*" +:+ "alcohol" +:+ "*" +:+ ".")
  = replaceNewlines "Avoid " +:+ "<em>" +:+ "alcohol" +:+ "</em>" +:+ formatBotText ".".
Proof.
  apply formatBotText_em; vm_compute; intuition discriminate.
Defined.

(** ** App: the session and the storage *)

Lemma createNewSession_persisted st r st' :
  App.createNewSession st r = Some st' -> App.persisted st'.
Proof.
  unfold App.createNewSession, App.persisted.
  destruct r as [newSessionId|e]; [|discriminate].
  intros H. inversion H; subst. right. cbn. apply lookup_insert_eq.
Qed.

Lemma step_persisted st ev : App.persisted st -> App.persisted (App.step st ev).
Proof.
  intros H.
  destruct ev as [|r|confirmed|r|r|r|newPDFs|pdfId|confirmed r info]; cbn [App.step].
  - unfold App.initializeSession, App.storedSession. cbn.
    destruct (App.localStorage st !! App.storageKey) as [stored|] eqn:E; [|exact H].
    destruct (JS.truthy stored); [|exact H].
    right. cbn. exact E.
  - unfold App.initializeSession_end.
    destruct (App.createNewSession st r) as [st'|] eqn:E.
    + apply createNewSession_persisted in E. exact E.
    + exact H.
  - unfold App.handleNewSession. destruct confirmed; [|exact H]. left. reflexivity.
  - unfold App.handleNewSession_end.
    destruct (App.createNewSession st r) as [st'|] eqn:E.
    + apply createNewSession_persisted in E. exact E.
    + exact H.
  - unfold App.loadSessionPDFs. destruct r as [data|e]; [|exact H].
    destruct (App.pdfs_success data); exact H.
  - unfold App.loadSessionInfo. destruct r as [data|e]; [|exact H].
    destruct (App.info_success data); exact H.
  - exact H.
  - exact H.
  - unfold App.handleClearSession. destruct confirmed; [|exact H].
    destruct r as [b|e]; [|exact H].
    unfold App.loadSessionInfo. destruct info as [data|e]; [|exact H].
    destruct (App.info_success data); exact H.
Qed.

(** X19.  Whatever storage the page is opened with and whatever happens next
    (restoring or creating a session, starting a new one, loading,
    uploading, removing, clearing), the session id in use is either empty
    or the one kept in [localStorage] under ["medical_chatbot_session"]. *)
Theorem session_in_use_is_stored (storage : gmap string string) (evs : list App.Event) :
  App.sessionId (App.run storage evs) = ""
  \/ App.localStorage (App.run storage evs) !! App.storageKey
     = Some (App.sessionId (App.run storage evs)).
Proof.
  unfold App.run.
  assert (H : App.persisted (App.mount storage)) by (left; reflexivity).
  revert H. generalize (App.mount storage).
  induction evs as [|ev evs IH]; intros st H; simpl; [exact H|].
  apply IH. apply step_persisted. exact H.
Qed.

(** X20.  A session that was created is restored on the next visit: opening the
    page over the storage left by [createNewSession] sets the same session
    id, lowers the loading flag and asks the server for nothing. *)
Theorem created_session_is_restored (st st' : App.State) (newSessionId : string) :
  newSessionId <> "" ->
  App.createNewSession st (Resolved newSessionId) = Some st' ->
  App.sessionId st' = newSessionId
  /\ App.initializeSession (App.mount (App.localStorage st'))
     = ({| App.sessionId := newSessionId; App.uploadedPDFs := [];
           App.isLoading := false; App.error := "";
           App.sessionInfo := None; App.localStorage := App.localStorage st' |},
        false).
Proof.
  intros Hne H. cbn in H. inversion H; subst; clear H. cbn [App.sessionId App.setStorage].
  split; [reflexivity|].
  unfold App.initializeSession, App.storedSession. cbn.
  rewrite lookup_insert_eq.
  destruct (JS.truthy newSessionId) eqn:E; [reflexivity|].
  apply truthy_false in E. contradiction.
Qed.

Lemma created_session_is_restored_witness :
  snd (App.initializeSession (App.mount (App.localStorage
         (App.setStorage (App.setSessionId (App.mount ∅) "abc-123")
            (<[App.storageKey := "abc-123"]> (App.localStorage (App.mount ∅)))))))
  = false.
Proof.
  refine (f_equal snd (proj2 (created_session_is_restored (App.mount ∅)
     (App.setStorage (App.setSessionId (App.mount ∅) "abc-123")
        (<[App.storageKey := "abc-123"]> (App.localStorage (App.mount ∅))))
     "abc-123" _ eq_refl))).
  discriminate.
Defined.

(** X21.  A confirmed "New Session" whose request fails leaves the page without
    session: the id is empty, the stored id is gone, the document list is
    empty and the error is set; the next visit asks for a new session
    instead of restoring the old one. *)
Theorem failed_new_session_forgets_old (st : App.State) (e : Thrown) :
  let st1 := fst (App.handleNewSession st true) in
  let st2 := App.handleNewSession_end st1 (Rejected e) in
  App.sessionId st2 = ""
  /\ App.localStorage st2 !! App.storageKey = None
  /\ App.uploadedPDFs st2 = []
  /\ App.error st2 = "Failed to create new session"
  /\ App.isLoading st2 = false
  /\ snd (App.initializeSession (App.mount (App.localStorage st2))) = true.
Proof.
  cbv zeta. cbn.
  split; [reflexivity|]. split; [apply lookup_delete_eq|].
  split; [reflexivity|]. split; [reflexivity|]. split; [reflexivity|].
  unfold App.initializeSession, App.storedSession. cbn.
  rewrite lookup_delete_eq. reflexivity.
Qed.

(** ** SessionInfo: getSessionDuration *)

Lemma digits_head n : exists c rest, JS.digits n = String c rest /\ c <> "J"%char.
Proof.
  unfold JS.digits.
  destruct (N.to_uint (Z.to_N n)); cbn; eexists; eexists; split;
    try reflexivity; discriminate.
Qed.

Lemma digits_not_just_started n tail : JS.digits n +:+ tail <> "Just started".
Proof.
  destruct (digits_head n) as (c & rest & -> & Hc).
  rewrite append_cons. intros H. inversion H. contradiction.
Qed.

(** X22.  [getSessionDuration] answers "Just started" exactly when one of the two
    dates cannot be read or the last activity is less than one minute after
    the creation (before it included). *)
Theorem getSessionDuration_just_started (created lastActivity : option Z) :
  SessionInfo.getSessionDuration created lastActivity = "Just started"
  <-> (created = None \/ lastActivity = None
       \/ exists c l, created = Some c /\ lastActivity = Some l /\ l - c < 60000).
Proof.
  unfold SessionInfo.getSessionDuration.
  destruct created as [c|], lastActivity as [l|];
    try (split; [intros _|reflexivity]; tauto).
  change (1000 * 60 * 60) with 3600000. change (1000 * 60) with 60000.
  set (d := l - c).
  assert (Hh : 0 < d / 3600000 <-> 3600000 <= d)
    by (Z.to_euclidean_division_equations; lia).
  destruct (Z.ltb_spec 0 (d / 3600000)) as [H1|H1].
  - split.
    + intros H. exfalso. revert H. apply digits_not_just_started.
    + intros [H|[H|(c' & l' & Ec & El & H)]]; try discriminate.
      inversion Ec; inversion El; subst. fold d in H. lia.
  - assert (Hm : 0 < Z.rem d 3600000 / 60000 <-> 60000 <= d).
    { destruct (Z.le_gt_cases 0 d) as [Hd|Hd].
      - rewrite Z.rem_small by lia. Z.to_euclidean_division_equations; lia.
      - pose proof (Z.rem_nonpos d 3600000 ltac:(lia) ltac:(lia)).
        Z.to_euclidean_division_equations; lia. }
    destruct (Z.ltb_spec 0 (Z.rem d 3600000 / 60000)) as [H2|H2].
    + split.
      * intros H. exfalso. revert H. apply digits_not_just_started.
      * intros [H|[H|(c' & l' & Ec & El & H)]]; try discriminate.
        inversion Ec; inversion El; subst. fold d in H. lia.
    + split; [|reflexivity]. intros _. right. right. exists c, l.
      split; [reflexivity|]. split; [reflexivity|]. fold d. lia.
Qed.

Lemma getSessionDuration_just_started_witness :
  SessionInfo.getSessionDuration (Some 5000) (Some 1000) = "Just started".
Proof.
  apply (proj2 (getSessionDuration_just_started (Some 5000) (Some 1000))).
  right. right. exists 5000, 1000.
  split; [reflexivity|]. split; [reflexivity|]. lia.
Defined.

(** X23.  From one minute on, [getSessionDuration] shows the whole minutes
    elapsed: below one hour as ["m minutes"], from one hour on as
    ["h" hours and "m" minutes] with [m] below 60. *)
Theorem getSessionDuration_whole_minutes (c l : Z) :
  60000 <= l - c ->
  let total := (l - c) / 60000 in
  SessionInfo.getSessionDuration (Some c) (Some l)
  = if total <? 60 then JS.digits total +:+ " minutes"
    else JS.digits (total / 60) +:+ "h " +:+ JS.digits (total mod 60) +:+ "m".
Proof.
  intros Hd. cbv zeta. unfold SessionInfo.getSessionDuration.
  change (1000 * 60 * 60) with 3600000. change (1000 * 60) with 60000.
  set (d := l - c) in *.
  rewrite Z.rem_mod_nonneg by lia.
  assert (E1 : d / 3600000 = d / 60000 / 60)
    by (Z.to_euclidean_division_equations; lia).
  assert (E2 : d mod 3600000 / 60000 = (d / 60000) mod 60)
    by (Z.to_euclidean_division_equations; lia).
  rewrite E1, E2.
  destruct (Z.ltb_spec (d / 60000) 60) as [H|H].
  - destruct (Z.ltb_spec 0 (d / 60000 / 60)) as [H1|H1];
      [Z.to_euclidean_division_equations; lia|].
    rewrite (Z.mod_small (d / 60000) 60)
      by (Z.to_euclidean_division_equations; lia).
    destruct (Z.ltb_spec 0 (d / 60000)) as [H2|H2];
      [reflexivity | Z.to_euclidean_division_equations; lia].
  - destruct (Z.ltb_spec 0 (d / 60000 / 60)) as [H1|H1];
      [reflexivity | Z.to_euclidean_division_equations; lia].
Qed.

Lemma getSessionDuration_whole_minutes_witness :
  SessionInfo.getSessionDuration (Some 1000) (Some 5401000)
  = if (5401000 - 1000) / 60000 <? 60
    then JS.digits ((5401000 - 1000) / 60000) +:+ " minutes"
    else JS.digits ((5401000 - 1000) / 60000 / 60) +:+ "h "
           +:+ JS.digits (((5401000 - 1000) / 60000) mod 60) +:+ "m".
Proof. apply getSessionDuration_whole_minutes. lia. Defined.
